(** * Idea wall: plan synthesis and wall application

    A shallow embedding of the plan pipeline of the idea-wall application.
    Each module below embeds one source file and keeps its names:

    - [AISummary]: [deriveTasksFromTranscript] with its helpers,
      [scorePriority], and the task conversion [geminiTasks] and the
      pseudo-notes of the summary view (AISummary.tsx, which the source tree
      holds inside lib/clearAiNotes.ts);
    - [AiOutputs]: [normalizeAIOutput] (aiOutputs.ts, in the same file);
    - [Db]: [addNote], [addEdge], [voteNote], [removeNote], [removeEdge]
      and the handler of [listenNotes] and [listenEdges] (lib/db.ts);
    - [ClearAiNotes], [ClearAppliedPlan], [ClearWall]: the three ways of
      taking records off a board (lib/clearAiNotes.ts,
      lib/clearAppliedPlan.ts, lib/clearWall.ts);
    - [PlanApply]: [applyPlanToWall], [placeNote], [summarizeTaskTitle]
      and [normalizeKey] (lib/planApply.ts);
    - [App]: [hasRenderable], [ensureRenderableAIOut] and the demo plan
      (App.tsx, lib/demoData.ts).

    JavaScript strings are sequences of UTF-16 code units, numbers are IEEE
    binary64 floats, a raw plan is a JSON value, [localStorage] is a finite
    map, and the asynchronous functions of the data layer, which the
    program always awaits one after the other, are computations in a
    state-and-error monad over the browser's storage.  What the host
    supplies (fresh identifiers, the decimal rendering of a number, the
    rotation of three.js) is a section variable of the definitions that use
    it. *)

From Stdlib Require Import ZArith NArith List Bool Ascii String DecimalString Floats Uint63
  Sorted Lia.
From stdpp Require Import base option list gmap.

Import ListNotations.
Local Open Scope N_scope.

(* A decimal literal denotes the nearest binary64 value, as in JavaScript;
   the nested value type needs no generated induction scheme. *)
Set Warnings "-inexact-float,-register-all".

(** ** JavaScript strings *)

Module JsString.

(** A string value is the list of its UTF-16 code units. *)
Definition t : Type := list N.

(** A literal written in ASCII. *)
Definition lit (s : string) : t :=
  List.map N_of_ascii (list_ascii_of_string s).

Definition inRange (lo hi c : N) : bool := (lo <=? c) && (c <=? hi).

(** [WhiteSpace] and [LineTerminator] of ECMAScript: what [trim] strips
    and what the regular-expression class [\s] matches. *)
Definition isWhiteSpace (c : N) : bool :=
  inRange 9 13 c || (c =? 32) || (c =? 160) || (c =? 5760)
  || inRange 8192 8202 c || (c =? 8232) || (c =? 8233) || (c =? 8239)
  || (c =? 8287) || (c =? 12288) || (c =? 65279).

(** The characters the regular-expression [.] does not match. *)
Definition isLineTerminator (c : N) : bool :=
  (c =? 10) || (c =? 13) || (c =? 8232) || (c =? 8233).

Definition isDigit (c : N) : bool := inRange 48 57 c.
Definition isLowerAZ (c : N) : bool := inRange 97 122 c.
Definition isUpperAZ (c : N) : bool := inRange 65 90 c.

(** The class [\w] (no [u] flag): ASCII letters, digits and underscore. *)
Definition isWordChar (c : N) : bool :=
  isLowerAZ c || isUpperAZ c || isDigit c || (c =? 95).

Fixpoint dropWhile (p : N -> bool) (s : t) : t :=
  match s with
  | [] => []
  | c :: r => if p c then dropWhile p r else s
  end.

Fixpoint countWhile (p : N -> bool) (s : t) : nat :=
  match s with
  | [] => 0%nat
  | c :: r => if p c then S (countWhile p r) else 0%nat
  end.

Definition trimStart (s : t) : t := dropWhile isWhiteSpace s.

(** Dropping trailing white space, from the right end. *)
Definition trimEnd (s : t) : t :=
  fold_right
    (fun c acc =>
       match acc with
       | [] => if isWhiteSpace c then [] else [c]
       | _ :: _ => c :: acc
       end)
    [] s.

(** [String.prototype.trim]. *)
Definition trim (s : t) : t := trimEnd (trimStart s).

Definition isEmpty (s : t) : bool :=
  match s with [] => true | _ :: _ => false end.

Fixpoint eqb (a b : t) : bool :=
  match a, b with
  | [], [] => true
  | x :: a', y :: b' => (x =? y) && eqb a' b'
  | _, _ => false
  end.

Fixpoint startsWith (p s : t) : bool :=
  match p, s with
  | [], _ => true
  | x :: p', y :: s' => (x =? y) && startsWith p' s'
  | _ :: _, [] => false
  end.

(** [String.prototype.includes]. *)
Fixpoint includes (s k : t) : bool :=
  startsWith k s
  || match s with
     | [] => false
     | _ :: r => includes r k
     end.

(** [String.prototype.toLowerCase], one code unit at a time.  The table
    is exact below U+0100; of the characters above, it holds the two whose
    lower case contains an ASCII letter (U+0130 and the Kelvin sign
    U+212A) and leaves every other one unchanged.  The program only ever
    searches lower-cased text for ASCII letters, digits, space and
    punctuation, and every character left out here is, like its lower
    case, none of those. *)
Definition lowerUnit (c : N) : t :=
  if isUpperAZ c then [c + 32]
  else if inRange 192 222 c && negb (c =? 215) then [c + 32]
  else if c =? 304 then [105; 775]
  else if c =? 8490 then [107]
  else [c].

Definition toLowerCase (s : t) : t := flat_map lowerUnit s.

(** [\b] between a character [prev] (if any) and the rest of the input. *)
Definition isWordOpt (c : option N) : bool :=
  match c with Some x => isWordChar x | None => false end.

Definition wordBoundary (prev : option N) (rest : t) : bool :=
  xorb (isWordOpt prev) (isWordOpt (head rest)).

(** The last character consumed after reading [w] from a position whose
    previous character was [prev]. *)
Definition lastOr (prev : option N) (w : t) : option N :=
  match List.rev w with
  | [] => prev
  | c :: _ => Some c
  end.

(** [/\bw\b/] tried at one position. *)
Definition wordAt (w : t) (prev : option N) (s : t) : bool :=
  wordBoundary prev s && startsWith w s
  && wordBoundary (lastOr prev w) (drop (List.length w) s).

(** [/\bw\b/.test(s)]: some position matches. *)
Fixpoint hasWordFrom (w : t) (prev : option N) (s : t) : bool :=
  wordAt w prev s
  || match s with
     | [] => false
     | c :: r => hasWordFrom w (Some c) r
     end.

Definition hasWord (w s : t) : bool := hasWordFrom w None s.

End JsString.

Abbreviation jsstring := JsString.t.
Abbreviation js := JsString.lit.

(** ** Regular-expression operations of [String.prototype]

    Every regular expression of the program is translated by hand into the
    matcher it denotes; the two operations that drive a matcher over a
    string are shared. *)

Module JsRegExp.
Import JsString.

(** [s.split(re)].  [sep prev rest] is the length of the match of [re]
    that starts at the position whose preceding character is [prev] and
    whose remaining input is [rest].  The loop is the one of the
    language: [acc] holds the piece being read (reversed) and [skip] the
    characters of a separator still to be passed over.  The separators of
    this program match at least one character, so a match of length zero
    is read as no match. *)
Fixpoint splitGo (sep : option N -> t -> option nat)
    (prev : option N) (skip : nat) (acc : t) (s : t) : list t :=
  match s with
  | [] => [List.rev acc]
  | c :: r =>
      match skip with
      | S k => splitGo sep (Some c) k acc r
      | O =>
          match sep prev s with
          | Some (S n) => List.rev acc :: splitGo sep (Some c) n [] r
          | _ => splitGo sep (Some c) O (c :: acc) r
          end
      end
  end.

Definition split (sep : option N -> t -> option nat) (s : t) : list t :=
  splitGo sep None O [] s.

(** [s.replace(re, "")] without the [g] flag: the leftmost match is
    removed.  [m atStart rest] is the length matched at a position,
    [atStart] telling whether it is position 0. *)
Fixpoint replaceFirst (m : bool -> t -> option nat) (atStart : bool) (s : t) : t :=
  match m atStart s with
  | Some n => drop n s
  | None =>
      match s with
      | [] => []
      | c :: r => c :: replaceFirst m false r
      end
  end.

(** Case folding of the [i] flag, as far as a pattern of ASCII characters
    can tell: no character outside ASCII folds onto an ASCII one. *)
Definition foldCase (c : N) : N := if isLowerAZ c then c - 32 else c.

Fixpoint startsWithCI (p s : t) : bool :=
  match p, s with
  | [], _ => true
  | x :: p', y :: s' => (foldCase x =? foldCase y) && startsWithCI p' s'
  | _ :: _, [] => false
  end.

(** [/w\s+/i] at one position, for a literal [w]. *)
Definition litThenSpaces (w s : t) : option nat :=
  if startsWithCI w s then
    match countWhile isWhiteSpace (drop (List.length w) s) with
    | O => None
    | S n => Some (List.length w + S n)%nat
    end
  else None.

Fixpoint firstMatch (alts : list (t -> option nat)) (s : t) : option nat :=
  match alts with
  | [] => None
  | a :: rest =>
      match a s with
      | Some n => Some n
      | None => firstMatch rest s
      end
  end.

End JsRegExp.

(** [Array.prototype.sort] with a comparator.  The language requires a
    stable sort; for a comparator that orders the elements consistently the
    stable ordering is unique, and insertion from the right computes it. *)
Module JsArray.

Fixpoint insertBy {A} (cmp : A -> A -> Z) (x : A) (l : list A) : list A :=
  match l with
  | [] => [x]
  | y :: r => if (cmp x y <=? 0)%Z then x :: l else y :: insertBy cmp x r
  end.

Definition sort {A} (cmp : A -> A -> Z) (l : list A) : list A :=
  fold_right (insertBy cmp) [] l.

End JsArray.

(** ** src/lib/AISummary.tsx: the heuristic deriver and the summary view's
    task conversion *)

Module AISummary.
Import JsString JsRegExp.

Inductive Lane := Frontend | Backend.

Record DerivedTask := mkDerivedTask {
  dt_id : jsstring;
  dt_title : jsstring;
  dt_lane : Lane;
  dt_prio : Z;                      (* 0 | 1 | 2 *)
}.

(** [/\b(p0|blocker|critical|must)\b/] and [/\b(p1|important|high)\b/]. *)
Definition scorePriority (text : jsstring) : Z :=
  let t := toLowerCase text in
  if existsb (fun w => hasWord (js w) t) ["p0"; "blocker"; "critical"; "must"]%string then 0%Z
  else if existsb (fun w => hasWord (js w) t) ["p1"; "important"; "high"]%string then 1%Z
  else 2%Z.

Definition pickLane (text : jsstring) : Lane :=
  let t := toLowerCase text in
  if existsb (fun w => hasWord (js w) t)
       ["front"; "frontend"; "ui"; "ux"; "three"; "webxr"; "ar"; "2d"; "3d"; "scene"]%string
  then Frontend
  else if existsb (fun w => hasWord (js w) t)
       ["back"; "backend"; "api"; "storage"; "auth"; "stt"; "asr"; "llm"; "summary";
        "plan"; "export"]%string
  then Backend
  else if existsb (fun w => includes t (js w)) ["plan"; "transcript"; "summary"; "export"]%string
  then Backend else Frontend.

Definition FE_HINTS : list jsstring :=
  List.map js
    ["ui"; "ux"; "front"; "frontend"; "webxr"; "ar"; "three"; "three.js"; "scene"; "canvas";
     "2d"; "3d"; "mesh"; "button"; "panel"; "drag"; "vote"; "sticky"; "note"; "overlay";
     "render"; "shader"; "camera"; "raycast"]%string.

Definition BE_HINTS : list jsstring :=
  List.map js
    ["back"; "backend"; "api"; "storage"; "auth"; "stt"; "asr"; "whisper"; "gemini"; "llm";
     "summary"; "plan"; "export"; "persistence"; "socket"; "server"; "schema"; "index";
     "worker"]%string.

Definition P0_HINTS : list jsstring :=
  List.map js ["p0"; "blocker"; "critical"; "must"; "urgent"; "asap"; "now"; "immediately"]%string.

Definition P1_HINTS : list jsstring :=
  List.map js ["p1"; "important"; "high"; "next"; "soon"]%string.

Definition detectPriority (s : jsstring) : Z :=
  let t := toLowerCase s in
  if existsb (includes t) P0_HINTS then 0%Z
  else if existsb (includes t) P1_HINTS then 1%Z
  else 2%Z.

Definition detectLane (s : jsstring) : Lane :=
  let t := toLowerCase s in
  let fe := existsb (includes t) FE_HINTS in
  let be := existsb (includes t) BE_HINTS in
  if fe && negb be then Frontend
  else if be && negb fe then Backend
  else if includes t (js "transcript") || includes t (js "summary") || includes t (js "plan")
  then Backend
  else Frontend.

(** [text.replace(/\s+/g, " ")]: every maximal run of white space
    becomes one space. *)
Fixpoint collapseSpaces (inRun : bool) (s : jsstring) : jsstring :=
  match s with
  | [] => []
  | c :: r =>
      if isWhiteSpace c
      then (if inRun then collapseSpaces true r else 32 :: collapseSpaces true r)
      else c :: collapseSpaces false r
  end.

(** [/(?<=[.!?])\s+/] at one position. *)
Definition sentenceSep (prev : option N) (s : jsstring) : option nat :=
  match prev with
  | Some p =>
      if (p =? 46) || (p =? 33) || (p =? 63) then
        match countWhile isWhiteSpace s with
        | O => None
        | S n => Some (S n)
        end
      else None
  | None => None
  end.

Definition splitSentences (text : jsstring) : list jsstring :=
  List.filter (fun s => negb (isEmpty s))
    (List.map trim (split sentenceSep (collapseSpaces false text))).

Definition isBullet (c : N) : bool := (c =? 45) || (c =? 42) || (c =? 8226).

(** [/^\s*[-*•]\s*/] removed. *)
Definition stripBullet (s : jsstring) : jsstring :=
  match dropWhile isWhiteSpace s with
  | c :: r => if isBullet c then dropWhile isWhiteSpace r else s
  | [] => s
  end.

(** [/\d+ d \s*/] at one position, [d] being [)] or [.]. *)
Definition digitsThen (d : N) (s : jsstring) : option nat :=
  match countWhile isDigit s with
  | O => None
  | S n =>
      match drop (S n) s with
      | c :: r => if c =? d then Some (S n + 1 + countWhile isWhiteSpace r)%nat else None
      | [] => None
      end
  end.

(** [/^\d+\)\s*|\d+\.\s*/] at one position: only the first alternative
    is tied to the start of the line. *)
Definition numberingAt (atStart : bool) (s : jsstring) : option nat :=
  match (if atStart then digitsThen 41 s else None) with
  | Some n => Some n
  | None => digitsThen 46 s
  end.

(** [/.*?\)\s*$/] on the text after an opening parenthesis. *)
Fixpoint parenTail (s : jsstring) : bool :=
  match s with
  | [] => false
  | c :: r =>
      ((c =? 41) && forallb isWhiteSpace r)
      || (negb (isLineTerminator c) && parenTail r)
  end.

(** [/\s*\(.*?\)\s*$/] at one position: a match runs to the end. *)
Definition trailingParenAt (_ : bool) (s : jsstring) : option nat :=
  match dropWhile isWhiteSpace s with
  | c :: r => if (c =? 40) && parenTail r then Some (List.length s) else None
  | [] => None
  end.

Definition normalizeTaskLine (s : jsstring) : jsstring :=
  trim
    (replaceFirst trailingParenAt true
       (replaceFirst numberingAt true
          (stripBullet s))).

Definition imperativeVerbs : list jsstring :=
  List.map js
    ["add"; "implement"; "create"; "build"; "fix"; "wire"; "connect"; "render"; "place";
     "capture"; "summarize"; "export"; "apply"; "clear"; "detect"; "enable"; "toggle";
     "support"; "show"; "group"; "prioritize"]%string.

Definition looksActionable (s : jsstring) : bool :=
  let t := toLowerCase s in
  existsb
    (fun v => startsWith v t && wordBoundary (lastOr None v) (drop (List.length v) t))
    imperativeVerbs
  || (hasWord (js "then") t || hasWord (js "next") t || hasWord (js "after") t
      || hasWord (js "so that") t)
  || match s with
     | c :: w :: _ => isBullet c && isWhiteSpace w
     | _ => false
     end
  || (hasWord (js "task") t || hasWord (js "step") t).

(** [/;\s+|, then\s+| then\s+| and then\s+/i] at one position. *)
Definition clauseSep (_ : option N) (s : jsstring) : option nat :=
  firstMatch
    [litThenSpaces (js ";"); litThenSpaces (js ", then"); litThenSpaces (js " then");
     litThenSpaces (js " and then")] s.

(** [line.toLowerCase().replace(/[^a-z0-9 ]/g, "").slice(0, 80)]. *)
Definition dedupKey (line : jsstring) : jsstring :=
  take 80
    (List.filter (fun c => isLowerAZ c || isDigit c || (c =? 32)) (toLowerCase line)).

Section Derive.
(** [crypto.randomUUID()]: the identifiers the host hands out, in the
    order of the calls. *)
Variable randomUUID : nat -> jsstring.

(** The second loop of [deriveTasksFromTranscript]: [seen] and [tasks]
    are its two mutable locals, and reaching [max] leaves the loop. *)
Fixpoint collectTasks (max : Z) (raw : list jsstring)
    (seen : gset jsstring) (tasks : list DerivedTask) : list DerivedTask :=
  match raw with
  | [] => tasks
  | line :: rest =>
      if isEmpty line || (List.length line <? 6)%nat then collectTasks max rest seen tasks
      else if negb (looksActionable line) then collectTasks max rest seen tasks
      else
        let key := dedupKey line in
        if bool_decide (key ∈ seen) then collectTasks max rest seen tasks
        else
          let tasks' :=
            tasks ++ [mkDerivedTask (randomUUID (List.length tasks)) line
                        (detectLane line) (detectPriority line)] in
          if (Z.of_nat (List.length tasks') >=? max)%Z then tasks'
          else collectTasks max rest ({[key]} ∪ seen) tasks'
  end.

(** The lines the first loop pushes onto [raw]. *)
Definition rawLines (text : jsstring) : list jsstring :=
  flat_map (fun s => List.map normalizeTaskLine (split clauseSep s)) (splitSentences text).

(** The tasks in the order of discovery, before the final sort. *)
Definition discovered (text : jsstring) (max : Z) : list DerivedTask :=
  collectTasks max (rawLines text) ∅ [].

(** [max] is [None] when the caller leaves the argument out. *)
Definition deriveTasksFromTranscript (text : jsstring) (max : option Z) : list DerivedTask :=
  let max := default 8%Z max in
  if isEmpty (trim text) then []
  else JsArray.sort (fun a b => (dt_prio a - dt_prio b)%Z) (discovered text max).

End Derive.

(** The text of the pseudo-note the [lanes] memo makes of a derived
    task: [`[P${t.prio}] ${t.title}`], the priority in decimal. *)
Definition pseudoNoteText (t : DerivedTask) : jsstring :=
  js "[P" ++ js (NilZero.string_of_int (Z.to_int (dt_prio t))) ++ js "] " ++ dt_title t.

(** The tasks of the [aiOut] prop of the component, as its type has
    them: [priority] is a string or a number. *)
Inductive PriorityProp :=
| PrioText (s : jsstring)
| PrioNumber (n : float).

Record PropTask := mkPropTask {
  p_id : option jsstring;
  p_title : jsstring;
  p_priority : option PriorityProp;
  p_lane : option jsstring;
}.

Section Gemini.
Variable Number_toString : float -> jsstring.
Variable randomUUID : nat -> jsstring.

(** [(typeof p === "string" ? p : String(p ?? "2")).toLowerCase()]. *)
Definition prioTxt (p : option PriorityProp) : jsstring :=
  toLowerCase
    match p with
    | Some (PrioText s) => s
    | Some (PrioNumber n) => Number_toString n
    | None => js "2"
    end.

(** [/\b(^0$|p0|critical|blocker|must)\b/] and its companion for 1:
    the alternative [^0$] matches when the whole text is that digit. *)
Definition prioOf (p : option PriorityProp) : Z :=
  let txt := prioTxt p in
  if eqb txt (js "0")
     || existsb (fun w => hasWord (js w) txt) ["p0"; "critical"; "blocker"; "must"]%string
  then 0%Z
  else if eqb txt (js "1")
          || existsb (fun w => hasWord (js w) txt) ["p1"; "important"; "high"]%string
  then 1%Z
  else 2%Z.

Definition laneOf (t : PropTask) : Lane :=
  let l := toLowerCase (default [] (p_lane t)) in
  if includes l (js "back") then Backend
  else if includes l (js "front") then Frontend
  else pickLane (p_title t).

(** [tasks.map(...)]; [calls] counts the identifiers drawn so far. *)
Fixpoint geminiMap (calls : nat) (ts : list PropTask) : list DerivedTask :=
  match ts with
  | [] => []
  | t :: rest =>
      match p_id t with
      | Some (c :: i) =>
          mkDerivedTask (c :: i) (p_title t) (laneOf t) (prioOf (p_priority t))
          :: geminiMap calls rest
      | _ =>
          mkDerivedTask (randomUUID calls) (p_title t) (laneOf t) (prioOf (p_priority t))
          :: geminiMap (S calls) rest
      end
  end.

(** [tasks] is [aiOut?.workplan?.tasks]. *)
Definition geminiTasks (tasks : option (list PropTask)) : list DerivedTask :=
  geminiMap 0 (default [] tasks).
End Gemini.

End AISummary.

(** ** JavaScript values

    The values [JSON.parse] produces, and [undefined].  An object is the
    list of its own properties, looked up from the left. *)

Module JsValue.
Import JsString.

Inductive value :=
| VUndefined
| VNull
| VBool (b : bool)
| VNum (n : float)
| VStr (s : jsstring)
| VArr (items : list value)
| VObj (props : list (jsstring * value)).

Fixpoint lookup (k : jsstring) (props : list (jsstring * value)) : option value :=
  match props with
  | [] => None
  | (k', v) :: r => if eqb k k' then Some v else lookup k r
  end.

(** [v?.k] for a key [k] that no prototype defines: the own property of
    an object, and [undefined] for everything else. *)
Definition get (v : value) (k : string) : value :=
  match v with
  | VObj props => default VUndefined (lookup (js k) props)
  | _ => VUndefined
  end.

(** [v ?? d]. *)
Definition orElse (v d : value) : value :=
  match v with
  | VUndefined | VNull => d
  | _ => v
  end.

(** [ToBoolean]. *)
Definition truthy (v : value) : bool :=
  match v with
  | VUndefined | VNull => false
  | VBool b => b
  | VNum n => negb (PrimFloat.eqb n 0%float || PrimFloat.is_nan n)
  | VStr s => negb (isEmpty s)
  | VArr _ | VObj _ => true
  end.

(** [Array.isArray(v) ? v : []]. *)
Definition toArray (v : value) : list value :=
  match v with
  | VArr items => items
  | _ => []
  end.

Section ToString.
(** [Number::toString], the decimal rendering of a float. *)
Variable Number_toString : float -> jsstring.

(** [String(v)].  [None] is the [TypeError] of an object that cannot be
    converted: a data object whose own [toString] property hides the
    inherited method (a parsed value is never callable). *)
Fixpoint toString (v : value) : option jsstring :=
  match v with
  | VUndefined => Some (js "undefined")
  | VNull => Some (js "null")
  | VBool true => Some (js "true")
  | VBool false => Some (js "false")
  | VNum n => Some (Number_toString n)
  | VStr s => Some s
  | VArr items =>
      (fix join (first : bool) (l : list value) : option jsstring :=
         match l with
         | [] => Some []
         | x :: r =>
             s ← match x with
                 | VUndefined | VNull => Some []
                 | _ => toString x
                 end;
             rest ← join false r;
             Some ((if first then [] else [44]) ++ s ++ rest)
         end) true items
  | VObj props =>
      match lookup (js "toString") props with
      | Some _ => None
      | None => Some (js "[object Object]")
      end
  end.
End ToString.

End JsValue.

(** ** src/lib/aiOutputs.ts: the plan normalizer *)

Module AiOutputs.
Import JsString JsValue.

Record AITask := mkAITask {
  t_title : jsstring;
  t_priority : option jsstring;
  t_owner : option jsstring;
  t_eta : option jsstring;
  t_lane : option jsstring;
  t_id : option jsstring;
}.

Record AIWorkflowEdge := mkAIWorkflowEdge {
  e_from : jsstring;
  e_to : jsstring;
  e_kind : option jsstring;
}.

Record WorkPlan := mkWorkPlan { tasks : list AITask }.

Record AIOutput := mkAIOutput {
  summary_md : jsstring;
  workplan : WorkPlan;
  workflow_edges : list AIWorkflowEdge;
}.

Section Normalize.
Variable Number_toString : float -> jsstring.

Definition String_ : value -> option jsstring := toString Number_toString.

(** [v ? String(v) : undefined]. *)
Definition optionalString (v : value) : option (option jsstring) :=
  if truthy v then Some <$> String_ v else Some None.

(** [String(v ?? "").trim()]. *)
Definition trimmedString (v : value) : option jsstring :=
  trim <$> String_ (orElse v (VStr [])).

Definition normalizeTask (t : value) : option AITask :=
  title ← trimmedString (get t "title");
  priority ← optionalString (get t "priority");
  owner ← optionalString (get t "owner");
  eta ← optionalString (get t "eta");
  lane ← optionalString (get t "lane");
  id ← optionalString (get t "id");
  Some (mkAITask title priority owner eta lane id).

Definition normalizeEdge (e : value) : option AIWorkflowEdge :=
  from ← trimmedString (get e "from");
  to ← trimmedString (get e "to");
  kind ← optionalString (get e "kind");
  Some (mkAIWorkflowEdge from to kind).

(** [None] when a [String(...)] conversion throws. *)
Definition normalizeAIOutput (raw : value) : option AIOutput :=
  mapped ← mapM normalizeTask (toArray (get (get raw "workplan") "tasks"));
  let tasks := List.filter (fun t => (0 <? List.length (t_title t))%nat) mapped in
  mappedEdges ← mapM normalizeEdge (toArray (get raw "workflow_edges"));
  let edges :=
    List.filter
      (fun e => (0 <? List.length (e_from e))%nat && (0 <? List.length (e_to e))%nat)
      mappedEdges in
  summary ← String_ (orElse (get raw "summary_md") (VStr []));
  Some (mkAIOutput summary (mkWorkPlan tasks) edges).
End Normalize.

(** The object [normalizeAIOutput] returns, as the value a caller can
    hand back to it: an absent optional field reads as [undefined]. *)
Definition ofOption (o : option jsstring) : value :=
  match o with
  | Some s => VStr s
  | None => VUndefined
  end.

Definition taskValue (t : AITask) : value :=
  VObj [(js "title", VStr (t_title t)); (js "priority", ofOption (t_priority t));
        (js "owner", ofOption (t_owner t)); (js "eta", ofOption (t_eta t));
        (js "lane", ofOption (t_lane t)); (js "id", ofOption (t_id t))].

Definition edgeValue (e : AIWorkflowEdge) : value :=
  VObj [(js "from", VStr (e_from e)); (js "to", VStr (e_to e));
        (js "kind", ofOption (e_kind e))].

Definition outputValue (o : AIOutput) : value :=
  VObj [(js "summary_md", VStr (summary_md o));
        (js "workplan", VObj [(js "tasks", VArr (List.map taskValue (tasks (workplan o))))]);
        (js "workflow_edges", VArr (List.map edgeValue (workflow_edges o)))].

End AiOutputs.

(** ** three.js: the two classes the applier touches *)

Module Three.

Record Vector3 := mkVector3 { vx : float; vy : float; vz : float }.
Record Quaternion := mkQuaternion { qx : float; qy : float; qz : float; qw : float }.

(** [new THREE.Quaternion()]: the identity rotation. *)
Definition newQuaternion : Quaternion := mkQuaternion 0 0 0 1.

(** [v.add(w)]. *)
Definition add (v w : Vector3) : Vector3 :=
  mkVector3 (PrimFloat.add (vx v) (vx w)) (PrimFloat.add (vy v) (vy w))
    (PrimFloat.add (vz v) (vz w)).

(** An object of the scene, as [matrixWorld.decompose] reads it: its
    position and orientation in world space. *)
Record Object3D := mkObject3D { worldPosition : Vector3; worldQuaternion : Quaternion }.

End Three.

(** ** src/lib/db.ts: the local data layer

    [localStorage] holds, per board, the array of notes under
    [notes_<boardId>] and the array of edges under [edges_<boardId>]; the
    two families of keys never meet, so each is a finite map from the board
    identifier.  The store holds the records as [JSON.parse] reads them
    back: strings, booleans and absent fields are what was written, and a
    number is what [JSON.stringify] makes of it.  A key that is absent
    reads as the empty array, as [readArray] has it, and the events
    dispatched on [window] are logged in the order they are sent. *)

Module Db.
Import JsString.

(** A number as [JSON.stringify] writes it and [JSON.parse] reads it
    back: a number that is not finite comes back as [null] ([None]), the
    negative zero as [0], and every other number as itself. *)
Definition jsonNumber (x : float) : option float :=
  if PrimFloat.is_finite x then Some (if PrimFloat.eqb x 0%float then 0%float else x)
  else None.

(** The types [Pose] and [NoteDoc] of ../types, over the numbers of the
    program ([float]) and over the numbers of the store. *)
Record PoseOf (num : Type) := mkPose {
  position : num * num * num;
  quaternion : num * num * num * num;
}.
Arguments mkPose {num}.
Arguments position {num}.
Arguments quaternion {num}.

Record NoteOf (num : Type) := mkNoteDoc {
  n_text : jsstring;
  n_color : jsstring;
  n_pose : PoseOf num;
  n_size : num;
  n_votes : num;
  n_aiGenerated : option bool;
  n_fromAI : option bool;
}.
Arguments mkNoteDoc {num}.
Arguments n_text {num}.
Arguments n_color {num}.
Arguments n_pose {num}.
Arguments n_size {num}.
Arguments n_votes {num}.
Arguments n_aiGenerated {num}.
Arguments n_fromAI {num}.

(** What a caller hands to the data layer, and what the store holds. *)
Definition Pose : Type := PoseOf float.
Definition NoteDoc : Type := NoteOf float.
Definition NoteJson : Type := NoteOf (option float).

(** [JSON.parse(JSON.stringify(note))]. *)
Definition jsonPose (p : Pose) : PoseOf (option float) :=
  let '(x, y, z) := position p in
  let '(a, b, c, d) := quaternion p in
  mkPose (jsonNumber x, jsonNumber y, jsonNumber z)
    (jsonNumber a, jsonNumber b, jsonNumber c, jsonNumber d).

Definition jsonDoc (d : NoteDoc) : NoteJson :=
  mkNoteDoc (n_text d) (n_color d) (jsonPose (n_pose d)) (jsonNumber (n_size d))
    (jsonNumber (n_votes d)) (n_aiGenerated d) (n_fromAI d).

Record StoredNote := mkStoredNote { note_id : jsstring; note_doc : NoteJson }.

(** The optional last argument of [addEdge]. *)
Record EdgeExtra := mkEdgeExtra { x_aiGenerated : option bool; x_fromAI : option bool }.

(** What a caller passes in the [kind] position of [addEdge]: the name of
    a kind, or, from planApply.ts, an object of flags. *)
Inductive KindArg :=
| KindName (k : jsstring)
| KindFlags (x : EdgeExtra).

Record StoredEdge := mkStoredEdge {
  edge_id : jsstring;
  edge_from : jsstring;
  edge_to : jsstring;
  edge_kind : KindArg;
  edge_aiGenerated : option bool;
  edge_fromAI : option bool;
}.

Inductive Topic := notes_updated | edges_updated | board_updated.

Record World := mkWorld {
  notesStore : gmap jsstring (list StoredNote);
  edgesStore : gmap jsstring (list StoredEdge);
  dispatched : list (Topic * jsstring);
  uidCalls : nat;
}.

(** [new Error(message)]. *)
Inductive Error := JsError (message : jsstring).

(** An awaited computation: it ends in a value or in a thrown error, and
    leaves the world as it was at that point. *)
Definition M (A : Type) : Type := World -> (Error + A) * World.

#[export] Instance M_ret : MRet M := fun A (a : A) w => (inr a, w).

#[export] Instance M_bind : MBind M := fun A B (f : A -> M B) (m : M A) w =>
  match m w with
  | (inl e, w') => (inl e, w')
  | (inr a, w') => f a w'
  end.

Definition throw {A} (e : Error) : M A := fun w => (inl e, w).

Definition readNotes (boardId : jsstring) (w : World) : list StoredNote :=
  default [] (notesStore w !! boardId).

Definition readEdges (boardId : jsstring) (w : World) : list StoredEdge :=
  default [] (edgesStore w !! boardId).

Section Api.
(** [uid()]: the identifiers the host generates, in the order of the
    calls. *)
Variable uid : nat -> jsstring.

Definition addNote (boardId : jsstring) (note : NoteDoc) : M jsstring := fun w =>
  let notes := readNotes boardId w in
  let id := uid (uidCalls w) in
  let stored := mkStoredNote id (jsonDoc note) in
  (inr id,
   mkWorld (<[boardId := notes ++ [stored]]> (notesStore w)) (edgesStore w)
     (dispatched w ++ [(notes_updated, boardId)]) (S (uidCalls w))).

(** [kind] and [extra] are [None] when the caller leaves them out. *)
Definition addEdge (boardId from to : jsstring)
    (kind : option KindArg) (extra : option EdgeExtra) : M jsstring := fun w =>
  let kind := default (KindName (js "follows")) kind in
  let edges := readEdges boardId w in
  let id := uid (uidCalls w) in
  let edge :=
    mkStoredEdge id from to kind (extra ≫= x_aiGenerated) (extra ≫= x_fromAI) in
  (inr id,
   mkWorld (notesStore w) (<[boardId := edges ++ [edge]]> (edgesStore w))
     (dispatched w ++ [(edges_updated, boardId)]) (S (uidCalls w))).
End Api.

(** [removeNote] and [removeEdge]: every record of the given id goes. *)
Definition removeNote (boardId noteId : jsstring) : M unit := fun w =>
  let notes := readNotes boardId w in
  let next := List.filter (fun n => negb (eqb (note_id n) noteId)) notes in
  (inr tt,
   mkWorld (<[boardId := next]> (notesStore w)) (edgesStore w)
     (dispatched w ++ [(notes_updated, boardId)]) (uidCalls w)).

Definition removeEdge (boardId edgeId : jsstring) : M unit := fun w =>
  let edges := readEdges boardId w in
  let next := List.filter (fun e => negb (eqb (edge_id e) edgeId)) edges in
  (inr tt,
   mkWorld (notesStore w) (<[boardId := next]> (edgesStore w))
     (dispatched w ++ [(edges_updated, boardId)]) (uidCalls w)).




(** The listeners.  A [Map] keeps its keys in the order of their first
    insertion; [arrToMap] and the body of the handler are the same for
    notes and for edges. *)
Inductive ChangeType := added | modified | removed.

Section Listen.
Context {T D : Type}.
Variable idOf : T -> jsstring.
Variable stripId : T -> D.
(** [JSON.stringify]. *)
Variable stringify : T -> jsstring.

Fixpoint mapSet (k : jsstring) (v : T) (m : list (jsstring * T)) : list (jsstring * T) :=
  match m with
  | [] => [(k, v)]
  | (k', v') :: r => if eqb k k' then (k, v) :: r else (k', v') :: mapSet k v r
  end.

Fixpoint mapGet (k : jsstring) (m : list (jsstring * T)) : option T :=
  match m with
  | [] => None
  | (k', v) :: r => if eqb k k' then Some v else mapGet k r
  end.

Definition arrToMap (arr : list T) : list (jsstring * T) :=
  foldl (fun m r => mapSet (idOf r) r m) [] arr.

(** The calls of the callback the handler makes for the maps [prev] and
    [curr]: the removed records, then the added and the modified ones. *)
Definition changes (prev curr : list (jsstring * T)) : list (jsstring * D * ChangeType) :=
  flat_map
    (fun kv =>
       match mapGet (fst kv) curr with
       | Some _ => []
       | None => [(fst kv, stripId (snd kv), removed)]
       end)
    prev
  ++ flat_map
       (fun kv =>
          match mapGet (fst kv) prev with
          | None => [(fst kv, stripId (snd kv), added)]
          | Some old =>
              if eqb (stringify (snd kv)) (stringify old) then []
              else [(fst kv, stripId (snd kv), modified)]
          end)
       curr.

(** The calls made when the listener is set up. *)
Definition initialCalls (prev : list (jsstring * T)) : list (jsstring * D * ChangeType) :=
  List.map (fun kv => (fst kv, stripId (snd kv), added)) prev.

(** One run of the handler on the array now in storage: the calls it
    makes and the map it keeps for the next run. *)
Definition handler (prev : list (jsstring * T)) (arr : list T)
    : list (jsstring * D * ChangeType) * list (jsstring * T) :=
  let curr := arrToMap arr in
  (changes prev curr, curr).
End Listen.

End Db.

(** ** src/lib/clearAiNotes.ts, clearAppliedPlan.ts and clearWall.ts: the
    reconciler *)

Module ClearAiNotes.
Import JsString Db.

(** [flag === true]. *)
Definition isTrue (flag : option bool) : bool :=
  match flag with
  | Some true => true
  | _ => false
  end.

Definition aiNote (n : StoredNote) : bool :=
  isTrue (n_fromAI (note_doc n)) || isTrue (n_aiGenerated (note_doc n)).

Definition aiEdge (e : StoredEdge) : bool :=
  isTrue (edge_fromAI e) || isTrue (edge_aiGenerated e).

(** A key that is absent is left alone: nothing is written and no event
    is sent. *)
Definition clearAiNotes (boardId : jsstring) : M unit := fun w =>
  match notesStore w !! boardId with
  | None => (inr tt, w)
  | Some notes =>
      let kept := List.filter (fun n => negb (aiNote n)) notes in
      (inr tt,
       mkWorld (<[boardId := kept]> (notesStore w)) (edgesStore w)
         (dispatched w ++ [(notes_updated, boardId)]) (uidCalls w))
  end.

Definition clearAiEdges (boardId : jsstring) : M unit := fun w =>
  match edgesStore w !! boardId with
  | None => (inr tt, w)
  | Some edges =>
      let kept := List.filter (fun e => negb (aiEdge e)) edges in
      (inr tt,
       mkWorld (notesStore w) (<[boardId := kept]> (edgesStore w))
         (dispatched w ++ [(edges_updated, boardId)]) (uidCalls w))
  end.

End ClearAiNotes.

Module ClearAppliedPlan.
Import JsString Db.

(** [!x.aiGenerated] keeps a record; both keys are written whether they
    were there or not, and no event is sent. *)
Definition clearAppliedPlan (boardId : jsstring) : M unit := fun w =>
  let filteredNotes :=
    List.filter (fun n => negb (ClearAiNotes.isTrue (n_aiGenerated (note_doc n))))
      (readNotes boardId w) in
  let filteredEdges :=
    List.filter (fun e => negb (ClearAiNotes.isTrue (edge_aiGenerated e)))
      (readEdges boardId w) in
  (inr tt,
   mkWorld (<[boardId := filteredNotes]> (notesStore w))
     (<[boardId := filteredEdges]> (edgesStore w)) (dispatched w) (uidCalls w)).

End ClearAppliedPlan.

Module ClearWall.
Import JsString Db.

(** Both keys of the board are removed.  The value returned lists the
    keys of the two [StorageEvent]s the function dispatches, which are no
    topic of the data layer. *)
Definition clearWall (boardId : jsstring) : M (list jsstring) := fun w =>
  (inr [js "notes_" ++ boardId; js "edges_" ++ boardId],
   mkWorld (delete boardId (notesStore w)) (delete boardId (edgesStore w))
     (dispatched w) (uidCalls w)).

End ClearWall.

(** ** src/lib/planApply.ts: the wall applier *)

Module PlanApply.
Import JsString Three Db.

(** Modelled from the spec: the type [AIOutput] of ./aiPlan, which
    planApply.ts imports and the sources do not hold.  The fields are
    those of the spec's data model; an option is a field the code tests
    before it reads it. *)
Record Task := mkTask {
  task_id : option jsstring;
  task_title : jsstring;
  task_description : option jsstring;
  task_owner : option jsstring;
  task_eta : option jsstring;
  task_priority : option jsstring;
  task_lane : option jsstring;
  task_dependsOn : option (list jsstring);
}.

Record WorkflowEdge := mkWorkflowEdge {
  we_from : jsstring;
  we_to : jsstring;
  we_kind : option jsstring;
}.

Record WorkPlan := mkWorkPlan {
  tasks : option (list Task);
  lanes : option (list jsstring);
}.

Record AIOutput := mkAIOutput {
  summary_md : jsstring;
  workplan : option WorkPlan;
  workflow_edges : option (list WorkflowEdge);
}.

(** The scene object: [xr.boardMesh] and [xr.boardAnchor]. *)
Record XR := mkXR { boardMesh : option Object3D; boardAnchor : option Object3D }.

Record Options := mkOptions {
  o_spacingX : option float;
  o_spacingY : option float;
  o_noteSize : option float;
  o_startX : option float;
  o_startY : option float;
  o_colorByLane : option (gmap jsstring jsstring);
  o_maxPerLane : option float;
}.

(** Truthiness of a string that may be [undefined], and [a || b]. *)
Definition truthyStr (o : option jsstring) : bool :=
  match o with
  | Some (_ :: _) => true
  | _ => false
  end.

Definition orStr (a b : option jsstring) : option jsstring :=
  if truthyStr a then a else b.

Definition ofNat (n : nat) : float := PrimFloat.of_uint63 (Uint63.of_Z (Z.of_nat n)).

Definition summarizeTaskTitle (title priority owner eta : option jsstring) : jsstring :=
  let priority := default (js "P1") priority in
  let own := if truthyStr owner then js " " ++ [8212] ++ js " " ++ default [] owner else [] in
  let when := if truthyStr eta then js " (" ++ default [] eta ++ js ")" else [] in
  js "[" ++ priority ++ js "] " ++ default [] (orStr title (Some (js "Task"))) ++ own ++ when.

Definition normalizeKey (s : jsstring) : jsstring := trim s.

Definition palette : list jsstring :=
  List.map js ["#FFD966"; "#A7F3D0"; "#93C5FD"; "#FCA5A5"; "#FBCFE8"; "#FDE68A"; "#C7D2FE";
               "#D1FAE5"]%string.

(** [lanes.forEach((lane, i) => { if (!colorByLane[lane]) ... })].  A lane
    named like a member of [Object.prototype] would read that member
    here; lane names are taken not to be such names. *)
Fixpoint assignColors (i : nat) (lanes : list jsstring)
    (colorByLane : gmap jsstring jsstring) : gmap jsstring jsstring :=
  match lanes with
  | [] => colorByLane
  | lane :: rest =>
      assignColors (S i) rest
        (if truthyStr (colorByLane !! lane) then colorByLane
         else <[lane := nth (i mod List.length palette) palette []]> colorByLane)
  end.

(** The lanes of the plan, or the single lane "Tasks". *)
Definition lanesOf (wp : WorkPlan) : list jsstring :=
  match lanes wp with
  | Some (l :: ls) => l :: ls
  | _ => [js "Tasks"]
  end.

Definition laneOfTask (lanes : list jsstring) (t : Task) : jsstring :=
  if truthyStr (task_lane t) && existsb (eqb (default [] (task_lane t))) lanes
  then default [] (task_lane t)
  else hd [] lanes.

(** The map [byLane]: every lane starts empty, and a task is pushed onto
    its lane while the lane holds fewer than [cap] tasks. *)
Definition groupByLane (cap : float) (lanes : list jsstring) (ts : list Task)
    : gmap jsstring (list Task) :=
  foldl
    (fun byLane t =>
       let lane := laneOfTask lanes t in
       let cur := default [] (byLane !! lane) in
       if PrimFloat.ltb (ofNat (List.length cur)) cap
       then <[lane := cur ++ [t]]> byLane
       else byLane)
    (foldl (fun byLane l => <[l := []]> byLane) ∅ lanes) ts.

Record PlaceNoteArgs := mkPlaceNoteArgs {
  a_boardId : jsstring;
  a_title : jsstring;
  a_detail : option jsstring;
  a_color : jsstring;
  a_textColor : option jsstring;
  a_x : float;
  a_y : float;
  a_z : float;
  a_noteSize : float;
  a_b2w : Vector3 -> Vector3;
  a_aiGenerated : option bool;
}.

(** The locals of [applyPlanToWall] its loops read. *)
Record Layout := mkLayout {
  l_boardId : jsstring;
  l_spacingX : float;
  l_spacingY : float;
  l_noteSize : float;
  l_startX : float;
  l_startY : float;
  l_colorByLane : gmap jsstring jsstring;
  l_byLane : gmap jsstring (list Task);
  l_b2w : Vector3 -> Vector3;
}.

Definition headerColor : jsstring := js "#111827".
Definition headerTextColor : jsstring := js "#ffffff".

Section Apply.
Variable uid : nat -> jsstring.
(** [v.applyQuaternion(q)] of three.js. *)
Variable applyQuaternion : Vector3 -> Quaternion -> Vector3.

Definition boardLocalToWorld (board : Object3D) (loc : Vector3) : Vector3 :=
  Three.add (applyQuaternion loc (worldQuaternion board)) (worldPosition board).

Definition placeNote (args : PlaceNoteArgs) : M jsstring :=
  let posW := a_b2w args (mkVector3 (a_x args) (a_y args) (a_z args)) in
  let q := newQuaternion in
  let text :=
    if truthyStr (a_detail args)
    then a_title args ++ [10] ++ default [] (a_detail args)
    else a_title args in
  let note :=
    mkNoteDoc text (a_color args)
      (mkPose (vx posW, vy posW, vz posW) (qx q, qy q, qz q, qw q))
      (a_noteSize args) 0%float (Some (default false (a_aiGenerated args))) None in
  id ← addNote uid (a_boardId args) note;
  mret id.

Definition laneX (L : Layout) (lx : nat) : float :=
  PrimFloat.add (l_startX L) (PrimFloat.mul (ofNat lx) (l_spacingX L)).

(** The inner loop: row [r] of lane [lx]. *)
Fixpoint placeTasks (L : Layout) (lane : jsstring) (lx r : nat) (ts : list Task)
    (idByTaskKey : gmap jsstring jsstring) : M (gmap jsstring jsstring) :=
  match ts with
  | [] => mret idByTaskKey
  | t :: rest =>
      let title :=
        summarizeTaskTitle (Some (task_title t)) (task_priority t) (task_owner t)
          (task_eta t) in
      let color := default [] (l_colorByLane L !! lane) in
      id ← placeNote
             (mkPlaceNoteArgs (l_boardId L) title (task_description t) color None
                (laneX L lx)
                (PrimFloat.sub (l_startY L) (PrimFloat.mul (ofNat (r + 1)) (l_spacingY L)))
                0 (l_noteSize L) (l_b2w L) (Some true));
      let key := default [] (orStr (task_id t) (Some (task_title t))) in
      placeTasks L lane lx (S r) rest (<[key := id]> idByTaskKey)
  end.

(** The outer loop: a header, then the rows of the lane. *)
Fixpoint placeLanes (L : Layout) (lx : nat) (lanes : list jsstring)
    (idByTaskKey : gmap jsstring jsstring) : M (gmap jsstring jsstring) :=
  match lanes with
  | [] => mret idByTaskKey
  | lane :: rest =>
      _ ← placeNote
            (mkPlaceNoteArgs (l_boardId L) ([55357; 56770] ++ js " " ++ lane) None
               headerColor (Some headerTextColor)
               (laneX L lx) (l_startY L) 0
               (PrimFloat.mul (l_noteSize L) 0.75) (l_b2w L) (Some true));
      ids ← placeTasks L lane lx 0 (default [] (l_byLane L !! lane)) idByTaskKey;
      placeLanes L (S lx) rest ids
  end.

(** [idByTaskKey.get(k) || idByTaskKey.get(normalizeKey(k))]. *)
Definition resolve (idByTaskKey : gmap jsstring jsstring) (k : jsstring) : option jsstring :=
  orStr (idByTaskKey !! k) (idByTaskKey !! normalizeKey k).

(** [fromId && toId && fromId !== toId]. *)
Definition wirable (fromId toId : option jsstring) : bool :=
  truthyStr fromId && truthyStr toId
  && negb (eqb (default [] fromId) (default [] toId)).

Fixpoint wireEdges (boardId : jsstring) (idByTaskKey : gmap jsstring jsstring)
    (es : list WorkflowEdge) : M unit :=
  match es with
  | [] => mret tt
  | e :: rest =>
      let fromId := resolve idByTaskKey (we_from e) in
      let toId := resolve idByTaskKey (we_to e) in
      if wirable fromId toId then
        _ ← addEdge uid boardId (default [] fromId) (default [] toId)
              (Some (KindFlags (mkEdgeExtra (Some true) None))) None;
        wireEdges boardId idByTaskKey rest
      else wireEdges boardId idByTaskKey rest
  end.

(** [xr.boardMesh || xr.boardAnchor]. *)
Definition boardOf (xr : XR) : option Object3D :=
  match boardMesh xr with
  | Some b => Some b
  | None => boardAnchor xr
  end.

(** The tasks the first guard lets through. *)
Definition tasksToApply (aiOut : option AIOutput) : list Task :=
  default [] ((aiOut ≫= workplan) ≫= tasks).

Definition layoutOf (boardId : jsstring) (board : Object3D) (wp : WorkPlan)
    (ts : list Task) (opts : option Options) : Layout :=
  let spacingX := default 0.28%float (opts ≫= o_spacingX) in
  let spacingY := default 0.20%float (opts ≫= o_spacingY) in
  let noteSize := default 0.18%float (opts ≫= o_noteSize) in
  let startX := default (PrimFloat.opp 0.6) (opts ≫= o_startX) in
  let startY := default 0.35%float (opts ≫= o_startY) in
  let cap := default 8%float (opts ≫= o_maxPerLane) in
  let lanes := lanesOf wp in
  let colorByLane := assignColors 0 lanes (default ∅ (opts ≫= o_colorByLane)) in
  mkLayout boardId spacingX spacingY noteSize startX startY colorByLane
    (groupByLane cap lanes ts) (boardLocalToWorld board).

Definition applyPlanToWall (boardId : jsstring) (xr : XR) (aiOut : option AIOutput)
    (opts : option Options) : M unit :=
  match aiOut ≫= workplan, tasksToApply aiOut with
  | Some wp, t :: ts =>
      match boardOf xr with
      | None => throw (JsError (js "Board not placed yet."))
      | Some board =>
          let L := layoutOf boardId board wp (t :: ts) opts in
          idByTaskKey ← placeLanes L 0 (lanesOf wp) ∅;
          wireEdges boardId idByTaskKey (default [] (aiOut ≫= workflow_edges))
      end
  | _, _ => throw (JsError (js "No tasks to apply."))
  end.
End Apply.

End PlanApply.

(** ** src/App.tsx: the output handed to the applier, and lib/demoData.ts *)

Module App.
Import JsString Db PlanApply.

Definition demoAI : AIOutput :=
  mkAIOutput
    (js "## Summary" ++ [10; 10]
     ++ js "Team brainstormed an AR Idea Wall with live speech " ++ [8594]
     ++ js " notes " ++ [8594] ++ js " AI workflow.")
    (Some (mkWorkPlan
       (Some
          [mkTask (Some (js "1")) (js "Build AR note board") None (Some (js "Alice"))
             (Some (js "Today")) (Some (js "P0")) None None;
           mkTask (Some (js "2")) (js "Integrate STT") None (Some (js "Bob"))
             (Some (js "Today")) (Some (js "P1")) None (Some [js "1"]);
           mkTask (Some (js "3")) (js "Run AI summary with Gemini") None (Some (js "Carol"))
             (Some (js "Tomorrow")) (Some (js "P1")) None (Some [js "2"])])
       None))
    (Some
       [mkWorkflowEdge (js "Build AR note board") (js "Integrate STT") (Some (js "depends"));
        mkWorkflowEdge (js "Integrate STT") (js "Run AI summary with Gemini")
          (Some (js "depends"))]).

(** [!!out && Array.isArray(out.workplan?.tasks) && out.workplan.tasks.length > 0]. *)
Definition hasRenderable (out : option AIOutput) : bool :=
  match (out ≫= workplan) ≫= tasks with
  | Some (_ :: _) => true
  | _ => false
  end.

(** [ensureRenderableAIOut]: the state [aiOut] of the component goes in
    and out; [build] is what [buildAIOutputFromPlan] would end in, a plan or
    an error of the planner, and is looked at only when the state cannot be
    rendered. *)
Definition ensureRenderableAIOut (build : Error + AIOutput) (aiOut : option AIOutput)
    : (Error + AIOutput) * option AIOutput :=
  let rebuilt :=
    match build with
    | inl e => (inl e, aiOut)
    | inr built =>
        if hasRenderable (Some built) then (inr built, Some built)
        else (inr demoAI, Some demoAI)
    end in
  match aiOut with
  | Some out => if hasRenderable aiOut then (inr out, aiOut) else rebuilt
  | None => rebuilt
  end.

End App.

(** ** Predicates of the specification and sample inputs *)

Module Spec.
Import JsString JsValue.

(** A string that does not start with white space. *)
Definition headSolid (s : jsstring) : bool :=
  match s with
  | [] => true
  | c :: _ => negb (isWhiteSpace c)
  end.

(** Non-empty and equal to its own trim. *)
Definition solid (s : jsstring) : Prop := s <> [] /\ trim s = s.

(** An optional field that is absent or a non-empty string. *)
Definition filled (o : option jsstring) : bool :=
  match o with
  | Some [] => false
  | _ => true
  end.

(** An output none of whose optional fields is the empty string. *)
Definition canonical (o : AiOutputs.AIOutput) : bool :=
  forallb
    (fun t =>
       filled (AiOutputs.t_priority t) && filled (AiOutputs.t_owner t)
       && filled (AiOutputs.t_eta t) && filled (AiOutputs.t_lane t)
       && filled (AiOutputs.t_id t))
    (AiOutputs.tasks (AiOutputs.workplan o))
  && forallb (fun e => filled (AiOutputs.e_kind e)) (AiOutputs.workflow_edges o).

(** A value none of whose objects, at any depth, has an own property
    named [toString]. *)
Fixpoint plain (v : value) : bool :=
  match v with
  | VArr items => forallb plain items
  | VObj props =>
      match lookup (js "toString") props with
      | Some _ => false
      | None => forallb (fun kv => plain (snd kv)) props
      end
  | _ => true
  end.

(** The closed examples hold no number: any rendering of numbers serves. *)
Definition plainNumber : float -> jsstring := fun _ => js "0".

(** The identifiers of the closed examples: "id0", "id1", ... *)
Definition sampleId (k : nat) : jsstring := js "id" ++ [48 + N.of_nat k].

Definition obj (props : list (string * value)) : value :=
  VObj (List.map (fun kv => (js (fst kv), snd kv)) props).

Definition str (s : string) : value := VStr (js s).

(** A raw plan: one task with a padded title, one task whose title is
    blank, one edge with both ends and one without a source. *)
Definition rawPlan : value :=
  obj [("summary_md", str " Plan. ");
       ("workplan",
        obj [("tasks",
              VArr [obj [("title", str " Ship it "); ("owner", str "Ann")];
                    obj [("title", str "   ")]])]);
       ("workflow_edges",
        VArr [obj [("from", str "Ship it"); ("to", str " Test it ")];
              obj [("from", str ""); ("to", str "Test it")]])]%string.

Definition rawPlanOut : AiOutputs.AIOutput :=
  AiOutputs.mkAIOutput (js " Plan. ")
    (AiOutputs.mkWorkPlan
       [AiOutputs.mkAITask (js "Ship it") None (Some (js "Ann")) None None None])
    [AiOutputs.mkAIWorkflowEdge (js "Ship it") (js "Test it") None].

(** A task whose priority is a severity word. *)
Definition rawCritical : value :=
  obj [("workplan",
        obj [("tasks", VArr [obj [("title", str "Fix login"); ("priority", str "critical")]])])
      ]%string.

Definition rawCriticalOut : AiOutputs.AIOutput :=
  AiOutputs.mkAIOutput []
    (AiOutputs.mkWorkPlan
       [AiOutputs.mkAITask (js "Fix login") (Some (js "critical")) None None None None])
    [].

(** A task whose priority is the empty array. *)
Definition rawEmptyArray : value :=
  obj [("workplan",
        obj [("tasks", VArr [obj [("title", str "Fix login"); ("priority", VArr [])]])])
      ]%string.

Definition rawEmptyArrayOnce : AiOutputs.AIOutput :=
  AiOutputs.mkAIOutput []
    (AiOutputs.mkWorkPlan
       [AiOutputs.mkAITask (js "Fix login") (Some []) None None None None])
    [].

Definition rawEmptyArrayTwice : AiOutputs.AIOutput :=
  AiOutputs.mkAIOutput []
    (AiOutputs.mkWorkPlan
       [AiOutputs.mkAITask (js "Fix login") None None None None None])
    [].

(** [new] is [old] followed by elements that all satisfy [P]. *)
Definition appended {A} (P : A -> Prop) (old new : list A) : Prop :=
  exists added, new = old ++ added /\ Forall P added.

(** What [placeNote] stores whatever the board's pose. *)
Definition unrotated (n : Db.StoredNote) : Prop :=
  Db.n_votes (Db.note_doc n) = Some 0%float
  /\ Db.quaternion (Db.n_pose (Db.note_doc n))
     = (Some 0%float, Some 0%float, Some 0%float, Some 1%float).

(** An edge record as [applyPlanToWall] leaves it: the flags object sits
    in the [kind] field and the record has no [aiGenerated] field. *)
Definition flagsInKind (e : Db.StoredEdge) : Prop :=
  Db.edge_kind e = Db.KindFlags (Db.mkEdgeExtra (Some true) None)
  /\ Db.edge_aiGenerated e = None.

(** The notes and edges of one board only grow, by notes that are
    unrotated and AI-generated and by edges between two distinct notes that
    carry their flags in the [kind] field. *)
Definition grows (b : jsstring) (w w' : Db.World) : Prop :=
  appended (fun n => unrotated n /\ Db.n_aiGenerated (Db.note_doc n) = Some true)
    (Db.readNotes b w) (Db.readNotes b w')
  /\ appended (fun e => Db.edge_from e <> Db.edge_to e /\ flagsInKind e)
       (Db.readEdges b w) (Db.readEdges b w').

(** The task-key mapping [applyPlanToWall] holds when it turns to the
    edges: the result of its note loops. *)
Definition idByTaskKeyAfterNotes (uid : nat -> jsstring)
    (applyQuaternion : Three.Vector3 -> Three.Quaternion -> Three.Vector3)
    (boardId : jsstring) (board : Three.Object3D) (wp : PlanApply.WorkPlan)
    (ts : list PlanApply.Task) (opts : option PlanApply.Options) (w : Db.World)
    : gmap jsstring jsstring :=
  match
    fst (PlanApply.placeLanes uid
           (PlanApply.layoutOf applyQuaternion boardId board wp ts opts) 0
           (PlanApply.lanesOf wp) ∅ w)
  with
  | inr ids => ids
  | inl _ => ∅
  end.

(** [v.applyQuaternion(q)] as three.js computes it, for the closed
    examples. *)
Definition rotate (v : Three.Vector3) (q : Three.Quaternion) : Three.Vector3 :=
  let '(x, y, z) := (Three.vx v, Three.vy v, Three.vz v) in
  let '(a, b, c, d) := (Three.qx q, Three.qy q, Three.qz q, Three.qw q) in
  let tx := (2 * (b * z - c * y))%float in
  let ty := (2 * (c * x - a * z))%float in
  let tz := (2 * (a * y - b * x))%float in
  Three.mkVector3 (x + d * tx + b * tz - c * ty)%float
    (y + d * ty + c * tx - a * tz)%float
    (z + d * tz + a * ty - b * tx)%float.

Definition emptyWorld : Db.World := Db.mkWorld ∅ ∅ [] 0.

Definition wallBoard : Three.Object3D :=
  Three.mkObject3D (Three.mkVector3 0 0.3 0) Three.newQuaternion.

Definition placed : PlanApply.XR := PlanApply.mkXR (Some wallBoard) None.
Definition unplaced : PlanApply.XR := PlanApply.mkXR None None.

Definition taskTitled (title : string) : PlanApply.Task :=
  PlanApply.mkTask None (js title) None None None None None None.

Definition planAB : PlanApply.WorkPlan :=
  PlanApply.mkWorkPlan (Some [taskTitled "A"; taskTitled "B"]) None.

Definition taskInLane (title lane : string) : PlanApply.Task :=
  PlanApply.mkTask None (js title) None None None None (Some (js lane)) None.

(** Two lanes with one task each and an edge across the lanes. *)
Definition outTwoLanes : PlanApply.AIOutput :=
  PlanApply.mkAIOutput []
    (Some (PlanApply.mkWorkPlan
             (Some [taskInLane "Build UI" "Frontend"; taskInLane "Build API" "Backend"])
             (Some [js "Frontend"; js "Backend"])))
    (Some [PlanApply.mkWorkflowEdge (js "Build UI") (js "Build API") None]).

Definition edgeAB : PlanApply.WorkflowEdge := PlanApply.mkWorkflowEdge (js "A") (js "B") None.
Definition edgeAC : PlanApply.WorkflowEdge := PlanApply.mkWorkflowEdge (js "A") (js "C") None.

(** Two tasks "A" and "B" and the edge from "A" to "B". *)
Definition outAB : PlanApply.AIOutput :=
  PlanApply.mkAIOutput [] (Some planAB) (Some [edgeAB]).

(** A plan without tasks. *)
Definition outNoTasks : PlanApply.AIOutput :=
  PlanApply.mkAIOutput [] (Some (PlanApply.mkWorkPlan (Some []) None)) (Some []).

(** The text of a lane header and of a task note. *)
Definition headerText (lane : jsstring) : jsstring := [55357; 56770] ++ js " " ++ lane.

Definition taskText (t : PlanApply.Task) : jsstring :=
  let title :=
    PlanApply.summarizeTaskTitle (Some (PlanApply.task_title t)) (PlanApply.task_priority t)
      (PlanApply.task_owner t) (PlanApply.task_eta t) in
  if PlanApply.truthyStr (PlanApply.task_description t)
  then title ++ [10] ++ default [] (PlanApply.task_description t)
  else title.

(** The tasks of a lane under the default cap: the first eight of the plan's
    tasks that fall into the lane. *)
Definition firstEight (lanes : list jsstring) (lane : jsstring) (ts : list PlanApply.Task)
    : list PlanApply.Task :=
  take 8 (List.filter (fun t => JsString.eqb (PlanApply.laneOfTask lanes t) lane) ts).

(** The texts of the notes of a plan, lane after lane: the header, then the
    rows. *)
Definition planTexts (byLane : gmap jsstring (list PlanApply.Task)) (lanes : list jsstring)
    : list jsstring :=
  flat_map (fun lane => headerText lane :: List.map taskText (default [] (byLane !! lane)))
    lanes.

(** The ends of the edges wired for a task-key mapping: one pair for every
    workflow edge that passes the test of the loop, in order. *)
Definition wiring (ids : gmap jsstring jsstring) (es : list PlanApply.WorkflowEdge)
    : list (jsstring * jsstring) :=
  flat_map
    (fun e =>
       let fromId := PlanApply.resolve ids (PlanApply.we_from e) in
       let toId := PlanApply.resolve ids (PlanApply.we_to e) in
       if PlanApply.wirable fromId toId then [(default [] fromId, default [] toId)] else [])
    es.

(** The records a call has added to a board. *)
Definition newNotes (b : jsstring) (w w' : Db.World) : list Db.StoredNote :=
  drop (List.length (Db.readNotes b w)) (Db.readNotes b w').

Definition newEdges (b : jsstring) (w w' : Db.World) : list Db.StoredEdge :=
  drop (List.length (Db.readEdges b w)) (Db.readEdges b w').

(** What a run that only adds notes [ns] to board [b] does to the world. *)
Definition notesRun (uid : nat -> jsstring) (b : jsstring) (w w' : Db.World)
    (ns : list Db.StoredNote) : Prop :=
  Db.readNotes b w' = Db.readNotes b w ++ ns
  /\ (forall b', b' <> b -> Db.notesStore w' !! b' = Db.notesStore w !! b')
  /\ Db.edgesStore w' = Db.edgesStore w
  /\ Db.dispatched w' = Db.dispatched w ++ replicate (List.length ns) (Db.notes_updated, b)
  /\ Db.uidCalls w' = (Db.uidCalls w + List.length ns)%nat
  /\ List.map Db.note_id ns = List.map uid (seq (Db.uidCalls w) (List.length ns)).

(** What a run that only adds edges [es] to board [b] does to the world. *)
Definition edgesRun (uid : nat -> jsstring) (b : jsstring) (w w' : Db.World)
    (es : list Db.StoredEdge) : Prop :=
  Db.readEdges b w' = Db.readEdges b w ++ es
  /\ (forall b', b' <> b -> Db.edgesStore w' !! b' = Db.edgesStore w !! b')
  /\ Db.notesStore w' = Db.notesStore w
  /\ Db.dispatched w' = Db.dispatched w ++ replicate (List.length es) (Db.edges_updated, b)
  /\ Db.uidCalls w' = (Db.uidCalls w + List.length es)%nat
  /\ List.map Db.edge_id es = List.map uid (seq (Db.uidCalls w) (List.length es)).

(** A note a user has written, and the world that holds it on the wall. *)
Definition userDoc : Db.NoteDoc :=
  Db.mkNoteDoc (js "Buy milk") (js "#FFD966") (Db.mkPose (0, 0, 0) (0, 0, 0, 1))%float
    0.18%float 0%float None None.

Definition userWorld : Db.World := snd (Db.addNote sampleId (js "wall") userDoc emptyWorld).

Definition anotherDoc : Db.NoteDoc :=
  Db.mkNoteDoc (js "Call Bob") (js "#A7F3D0") (Db.mkPose (0, 0, 0) (0, 0, 0, 1))%float
    0.18%float 0%float None None.

(** The two notes as the store holds them, under the identifiers id0
    and id1. *)
Definition userNote : Db.StoredNote := Db.mkStoredNote (js "id0") (Db.jsonDoc userDoc).
Definition anotherNote : Db.StoredNote := Db.mkStoredNote (js "id1") (Db.jsonDoc anotherDoc).

(** A rendering of a note that tells two notes apart, for the examples
    of the listener. *)
Definition sampleStringify (n : Db.StoredNote) : jsstring :=
  Db.note_id n ++ js ":" ++ Db.n_text (Db.note_doc n).

(** A point of world space as the store holds it. *)
Definition storedPoint (v : Three.Vector3) : option float * option float * option float :=
  (Db.jsonNumber (Three.vx v), Db.jsonNumber (Three.vy v), Db.jsonNumber (Three.vz v)).

(** The board-local points of the notes of a plan, in the order of their
    creation: column [lx] lies at [startX + lx * spacingX]; its header is
    at [startY] and its row [r] at [startY - (r + 1) * spacingY]; all at
    depth 0. *)
Definition rowPoints (L : PlanApply.Layout) (lx r rows : nat) : list Three.Vector3 :=
  List.map
    (fun r =>
       Three.mkVector3
         (PlanApply.l_startX L + PlanApply.ofNat lx * PlanApply.l_spacingX L)%float
         (PlanApply.l_startY L - PlanApply.ofNat (r + 1) * PlanApply.l_spacingY L)%float
         0%float)
    (seq r rows).

Fixpoint planPoints (L : PlanApply.Layout) (lx : nat) (lanes : list jsstring)
    : list Three.Vector3 :=
  match lanes with
  | [] => []
  | lane :: rest =>
      Three.mkVector3
        (PlanApply.l_startX L + PlanApply.ofNat lx * PlanApply.l_spacingX L)%float
        (PlanApply.l_startY L) 0%float
      :: rowPoints L lx 0 (List.length (default [] (PlanApply.l_byLane L !! lane)))
      ++ planPoints L (S lx) rest
  end.

(** A board that faces the other way: half a turn about the vertical
    axis, away from the origin. *)
Definition turnedBoard : Three.Object3D :=
  Three.mkObject3D (Three.mkVector3 1 0.5 2) (Three.mkQuaternion 0 1 0 0).

Definition turned : PlanApply.XR := PlanApply.mkXR (Some turnedBoard) None.

(** Every identifier the mapping holds is one of [known]. *)
Definition idsWithin (known : list jsstring) (ids : gmap jsstring jsstring) : Prop :=
  forall k v, ids !! k = Some v -> In v known.

End Spec.

(** * Properties *)

(** ** Strings *)

Section StringFacts.
Import JsString Spec.

Lemma trimEnd_cons (c : N) (r : jsstring) :
  trimEnd (c :: r) =
    match trimEnd r with
    | [] => if isWhiteSpace c then [] else [c]
    | _ :: _ => c :: trimEnd r
    end.
Proof. reflexivity. Qed.

Lemma trimEnd_idem (s : jsstring) : trimEnd (trimEnd s) = trimEnd s.
Proof.
  induction s as [|c r IH]; [reflexivity|].
  rewrite trimEnd_cons.
  destruct (trimEnd r) as [|x y] eqn:E.
  - destruct (isWhiteSpace c) eqn:W; [reflexivity|].
    rewrite trimEnd_cons. simpl. now rewrite W.
  - rewrite trimEnd_cons, IH. reflexivity.
Qed.

Lemma trimStart_headSolid (s : jsstring) : headSolid (trimStart s) = true.
Proof.
  induction s as [|c r IH]; [reflexivity|].
  unfold trimStart in *. simpl.
  destruct (isWhiteSpace c) eqn:W; [exact IH|].
  simpl. now rewrite W.
Qed.

Lemma trimStart_solid (s : jsstring) : headSolid s = true -> trimStart s = s.
Proof.
  destruct s as [|c r]; [reflexivity|].
  unfold trimStart. simpl. now destruct (isWhiteSpace c).
Qed.

Lemma trimEnd_headSolid (s : jsstring) : headSolid s = true -> headSolid (trimEnd s) = true.
Proof.
  destruct s as [|c r]; [reflexivity|].
  cbn [headSolid]. intros W. rewrite trimEnd_cons.
  destruct (trimEnd r); [|exact W].
  destruct (isWhiteSpace c) eqn:E; [reflexivity|].
  cbn [headSolid]. now rewrite E.
Qed.

Lemma trim_idem (s : jsstring) : trim (trim s) = trim s.
Proof.
  unfold trim.
  rewrite (trimStart_solid (trimEnd (trimStart s))).
  - apply trimEnd_idem.
  - apply trimEnd_headSolid, trimStart_headSolid.
Qed.

Lemma trimStart_blank (s : jsstring) : forallb isWhiteSpace s = true -> trimStart s = [].
Proof.
  induction s as [|c r IH]; [reflexivity|].
  simpl. intros [W R]%andb_prop. unfold trimStart in *. simpl. rewrite W. auto.
Qed.

Lemma trim_blank (s : jsstring) : forallb isWhiteSpace s = true -> trim s = [].
Proof. intros H. unfold trim. now rewrite trimStart_blank. Qed.

Lemma trimEnd_nil_blank (s : jsstring) : trimEnd s = [] -> forallb isWhiteSpace s = true.
Proof.
  induction s as [|c r IH]; [reflexivity|].
  rewrite trimEnd_cons.
  destruct (trimEnd r); [|discriminate].
  destruct (isWhiteSpace c) eqn:W; [|discriminate].
  intros _. simpl. rewrite W. auto.
Qed.

Lemma trimStart_nil_blank (s : jsstring) :
  forallb isWhiteSpace (trimStart s) = true -> forallb isWhiteSpace s = true.
Proof.
  induction s as [|c r IH]; [reflexivity|].
  unfold trimStart in *. simpl.
  destruct (isWhiteSpace c) eqn:W; simpl; [exact IH|].
  now rewrite W.
Qed.

Lemma trim_nil_blank (s : jsstring) : trim s = [] -> forallb isWhiteSpace s = true.
Proof. intros H. apply trimStart_nil_blank, trimEnd_nil_blank, H. Qed.

Lemma eqb_eq (a b : jsstring) : eqb a b = true <-> a = b.
Proof.
  revert b. induction a as [|x a IH]; intros [|y b]; simpl; split; try congruence; auto.
  - intros [H1 H2]%andb_prop. apply N.eqb_eq in H1. apply IH in H2. congruence.
  - intros [= -> ->]. rewrite N.eqb_refl. simpl. now apply IH.
Qed.

End StringFacts.

(** ** The plan normalizer *)

Section NormalizerFacts.
Import JsString JsValue AiOutputs Spec.

Variable Number_toString : float -> jsstring.

Lemma mapM_Forall {A B} (f : A -> option B) (P : B -> Prop) (l : list A) (k : list B) :
  mapM f l = Some k -> (forall x y, f x = Some y -> P y) -> Forall P k.
Proof.
  intros H HP. revert k H.
  induction l as [|x l IH]; intros k H; simpl in H.
  - injection H as <-. constructor.
  - destruct (f x) as [y|] eqn:Fx; simpl in H; [|discriminate].
    destruct (mapM f l) as [k'|]; simpl in H; [|discriminate].
    injection H as <-. constructor; eauto.
Qed.

Lemma trimmedString_trimmed (v : value) (s : jsstring) :
  trimmedString Number_toString v = Some s -> trim s = s.
Proof.
  unfold trimmedString. intros H.
  destruct (String_ Number_toString (orElse v (VStr []))) as [u|]; simpl in H; [|discriminate].
  injection H as <-. apply trim_idem.
Qed.

Lemma normalizeTask_title (t : value) (y : AITask) :
  normalizeTask Number_toString t = Some y -> trim (t_title y) = t_title y.
Proof.
  unfold normalizeTask. intros H.
  destruct (trimmedString _ (get t "title")) as [s|] eqn:E; simpl in H; [|discriminate].
  repeat match type of H with
  | context [optionalString ?n ?v] =>
      destruct (optionalString n v); simpl in H; [|discriminate]
  end.
  injection H as <-. simpl. eapply trimmedString_trimmed, E.
Qed.

Lemma normalizeEdge_ends (e : value) (y : AIWorkflowEdge) :
  normalizeEdge Number_toString e = Some y ->
  trim (e_from y) = e_from y /\ trim (e_to y) = e_to y.
Proof.
  unfold normalizeEdge. intros H.
  destruct (trimmedString _ (get e "from")) as [a|] eqn:Ea; simpl in H; [|discriminate].
  destruct (trimmedString _ (get e "to")) as [b|] eqn:Eb; simpl in H; [|discriminate].
  destruct (optionalString _ _); simpl in H; [|discriminate].
  injection H as <-. simpl. split; eapply trimmedString_trimmed; eassumption.
Qed.

Lemma positive_length_nonempty (s : jsstring) : (0 <? List.length s)%nat = true -> s <> [].
Proof. destruct s; [discriminate | discriminate]. Qed.

(** The two lists [normalizeAIOutput] maps and filters, and the summary. *)
Lemma normalizeAIOutput_inv (raw : value) (out : AIOutput) :
  normalizeAIOutput Number_toString raw = Some out ->
  exists mapped mappedEdges,
    mapM (normalizeTask Number_toString) (toArray (get (get raw "workplan") "tasks"))
      = Some mapped
    /\ mapM (normalizeEdge Number_toString) (toArray (get raw "workflow_edges"))
      = Some mappedEdges
    /\ String_ Number_toString (orElse (get raw "summary_md") (VStr [])) = Some (summary_md out)
    /\ tasks (workplan out) = List.filter (fun t => (0 <? List.length (t_title t))%nat) mapped
    /\ workflow_edges out =
         List.filter
           (fun e => (0 <? List.length (e_from e))%nat && (0 <? List.length (e_to e))%nat)
           mappedEdges.
Proof.
  unfold normalizeAIOutput. intros H.
  destruct (mapM (normalizeTask _) _) as [mapped|]; simpl in H; [|discriminate].
  destruct (mapM (normalizeEdge _) _) as [mappedEdges|]; simpl in H; [|discriminate].
  destruct (String_ _ _) as [s|]; simpl in H; [|discriminate].
  injection H as <-. exists mapped, mappedEdges. simpl. auto.
Qed.

Lemma normalized_solid (raw : value) (out : AIOutput) :
  normalizeAIOutput Number_toString raw = Some out ->
  Forall (fun t => solid (t_title t)) (tasks (workplan out))
  /\ Forall (fun e => solid (e_from e) /\ solid (e_to e)) (workflow_edges out).
Proof.
  intros H.
  destruct (normalizeAIOutput_inv raw out H) as (mapped & mappedEdges & Ht & He & _ & -> & ->).
  split; apply List.Forall_forall; intros x [Hin Hlen]%filter_In.
  - split; [now apply positive_length_nonempty|].
    pose proof (mapM_Forall _ (fun y => trim (t_title y) = t_title y) _ _ Ht
                  normalizeTask_title) as F.
    rewrite List.Forall_forall in F. now apply F.
  - apply andb_prop in Hlen as [Hf Hto].
    pose proof (mapM_Forall _
                  (fun y => trim (e_from y) = e_from y /\ trim (e_to y) = e_to y) _ _ He
                  normalizeEdge_ends) as F.
    rewrite List.Forall_forall in F. destruct (F x Hin) as [Tf Tt].
    repeat split; auto using positive_length_nonempty.
Qed.

(** C4. For every raw input on which [normalizeAIOutput] returns, every
    task of the output has a title that is non-empty and equal to its own
    trim, and every workflow edge has [from] and [to] fields that are
    non-empty and equal to their own trim. *)
Theorem normalizeAIOutput_solid (raw : value) (out : AIOutput) :
  normalizeAIOutput Number_toString raw = Some out ->
  Forall (fun t => solid (t_title t)) (tasks (workplan out))
  /\ Forall (fun e => solid (e_from e) /\ solid (e_to e)) (workflow_edges out).
Proof. apply normalized_solid. Qed.

Lemma mapM_section {A B} (f : A -> option B) (g : B -> A) (l : list B) :
  Forall (fun y => f (g y) = Some y) l -> mapM f (List.map g l) = Some l.
Proof.
  induction 1 as [|y l Hy _ IH]; [reflexivity|].
  simpl. rewrite Hy. simpl. rewrite IH. reflexivity.
Qed.

Lemma filter_all {A} (p : A -> bool) (l : list A) :
  Forall (fun x => p x = true) l -> List.filter p l = l.
Proof.
  induction 1 as [|x l Hx _ IH]; [reflexivity|].
  simpl. now rewrite Hx, IH.
Qed.

Lemma optionalString_ofOption (o : option jsstring) :
  filled o = true -> optionalString Number_toString (ofOption o) = Some o.
Proof. destruct o as [[|c s]|]; [discriminate | reflexivity | reflexivity]. Qed.

Lemma trimmedString_VStr (s : jsstring) :
  trimmedString Number_toString (VStr s) = Some (trim s).
Proof. reflexivity. Qed.

Lemma normalizeTask_taskValue (t : AITask) :
  trim (t_title t) = t_title t ->
  filled (t_priority t) && filled (t_owner t) && filled (t_eta t) && filled (t_lane t)
    && filled (t_id t) = true ->
  normalizeTask Number_toString (taskValue t) = Some t.
Proof.
  destruct t as [title priority owner eta lane id]. simpl.
  intros Ht H. repeat (apply andb_prop in H as [H ?]).
  unfold normalizeTask.
  change (get (taskValue (mkAITask title priority owner eta lane id)) "title")
    with (VStr title).
  change (get (taskValue (mkAITask title priority owner eta lane id)) "priority")
    with (ofOption priority).
  change (get (taskValue (mkAITask title priority owner eta lane id)) "owner")
    with (ofOption owner).
  change (get (taskValue (mkAITask title priority owner eta lane id)) "eta")
    with (ofOption eta).
  change (get (taskValue (mkAITask title priority owner eta lane id)) "lane")
    with (ofOption lane).
  change (get (taskValue (mkAITask title priority owner eta lane id)) "id")
    with (ofOption id).
  rewrite trimmedString_VStr, Ht, !optionalString_ofOption by assumption.
  reflexivity.
Qed.

Lemma normalizeEdge_edgeValue (e : AIWorkflowEdge) :
  trim (e_from e) = e_from e -> trim (e_to e) = e_to e -> filled (e_kind e) = true ->
  normalizeEdge Number_toString (edgeValue e) = Some e.
Proof.
  destruct e as [from to kind]. simpl. intros Hf Ht Hk.
  unfold normalizeEdge.
  change (get (edgeValue (mkAIWorkflowEdge from to kind)) "from") with (VStr from).
  change (get (edgeValue (mkAIWorkflowEdge from to kind)) "to") with (VStr to).
  change (get (edgeValue (mkAIWorkflowEdge from to kind)) "kind") with (ofOption kind).
  rewrite !trimmedString_VStr, Hf, Ht, optionalString_ofOption by assumption.
  reflexivity.
Qed.

(** C9, as amended. When [normalizeAIOutput] returns an output none of
    whose optional fields is the empty string, normalizing that output
    again returns it unchanged. *)
Theorem normalizeAIOutput_idempotent (raw : value) (out : AIOutput) :
  normalizeAIOutput Number_toString raw = Some out ->
  canonical out = true ->
  normalizeAIOutput Number_toString (outputValue out) = Some out.
Proof.
  intros H C.
  destruct (normalized_solid raw out H) as [St Se].
  apply andb_prop in C as [Ct Ce]. rewrite forallb_forall in Ct, Ce.
  destruct out as [summary [ts] es]. simpl in *.
  unfold normalizeAIOutput.
  change (toArray (get (get (outputValue (mkAIOutput summary (mkWorkPlan ts) es)) "workplan")
                     "tasks")) with (List.map taskValue ts).
  change (toArray (get (outputValue (mkAIOutput summary (mkWorkPlan ts) es)) "workflow_edges"))
    with (List.map edgeValue es).
  change (get (outputValue (mkAIOutput summary (mkWorkPlan ts) es)) "summary_md")
    with (VStr summary).
  rewrite List.Forall_forall in St, Se.
  rewrite (mapM_section (normalizeTask Number_toString) taskValue ts); cycle 1.
  { apply List.Forall_forall. intros t Hin.
    apply normalizeTask_taskValue; [apply St, Hin | apply Ct, Hin]. }
  rewrite (mapM_section (normalizeEdge Number_toString) edgeValue es); cycle 1.
  { apply List.Forall_forall. intros e Hin. destruct (Se e Hin) as [[_ Hf] [_ Ht]].
    apply normalizeEdge_edgeValue; auto. }
  simpl. rewrite !filter_all; [reflexivity | |].
  - apply List.Forall_forall. intros e Hin. destruct (Se e Hin) as [[Nf _] [Nt _]].
    destruct (e_from e); [contradiction|]. destruct (e_to e); [contradiction|]. reflexivity.
  - apply List.Forall_forall. intros t Hin. destruct (St t Hin) as [Nt _].
    destruct (t_title t); [contradiction|]. reflexivity.
Qed.

Lemma plain_lookup (k : jsstring) (props : list (jsstring * value)) (v : value) :
  forallb (fun kv => plain (snd kv)) props = true -> lookup k props = Some v -> plain v = true.
Proof.
  induction props as [|[k' x] r IH]; [discriminate|].
  cbn [forallb lookup snd]. intros [Hx Hr]%andb_prop.
  destruct (eqb k k'); [now intros [= <-] | now apply IH].
Qed.

Lemma plain_get (v : value) (k : string) : plain v = true -> plain (get v k) = true.
Proof.
  destruct v as [| | | | |items|props]; try reflexivity.
  cbn [plain get]. destruct (lookup (js "toString") props); [discriminate|].
  intros H. destruct (lookup (js k) props) as [x|] eqn:E; [|reflexivity].
  eapply plain_lookup; eauto.
Qed.

Lemma plain_toArray (v : value) : plain v = true -> Forall (fun x => plain x = true) (toArray v).
Proof.
  destruct v as [| | | | |items|props]; try (intros; constructor).
  cbn [plain toArray]. intros H. apply List.Forall_forall. intros x Hin.
  rewrite forallb_forall in H. now apply H.
Qed.

Lemma plain_orElse (v d : value) : plain v = true -> plain d = true -> plain (orElse v d) = true.
Proof. now destruct v. Qed.

(** [String(v)] returns on every plain value. *)
Lemma plain_toString : forall v, plain v = true -> exists s, String_ Number_toString v = Some s.
Proof.
  unfold String_. fix IH 1.
  intros [| |[|]|n|s|items|props] H; try (eexists; reflexivity).
  - cbn [plain] in H. cbn [toString].
    generalize true.
    induction items as [|x r IHr]; intros first; [eexists; reflexivity|].
    cbn [forallb] in H. apply andb_prop in H as [Hx Hr].
    destruct (IHr Hr false) as [rest ->].
    destruct (IH x Hx) as [sx Hsx].
    destruct x; try rewrite Hsx; eexists; reflexivity.
  - cbn [plain] in H. cbn [toString].
    destruct (lookup (js "toString") props); [discriminate | eexists; reflexivity].
Qed.

Lemma plain_trimmedString (v : value) :
  plain v = true -> exists s, trimmedString Number_toString v = Some s.
Proof.
  intros H. unfold trimmedString.
  destruct (plain_toString (orElse v (VStr [])) (plain_orElse v (VStr []) H eq_refl)) as [s ->].
  eexists; reflexivity.
Qed.

Lemma plain_optionalString (v : value) :
  plain v = true -> exists o, optionalString Number_toString v = Some o.
Proof.
  intros H. unfold optionalString. destruct (truthy v); [|eexists; reflexivity].
  destruct (plain_toString v H) as [s ->]. eexists; reflexivity.
Qed.

Lemma plain_normalizeTask (t : value) :
  plain t = true -> is_Some (normalizeTask Number_toString t).
Proof.
  intros H. unfold normalizeTask.
  destruct (plain_trimmedString _ (plain_get t "title" H)) as [? ->].
  destruct (plain_optionalString _ (plain_get t "priority" H)) as [? ->].
  destruct (plain_optionalString _ (plain_get t "owner" H)) as [? ->].
  destruct (plain_optionalString _ (plain_get t "eta" H)) as [? ->].
  destruct (plain_optionalString _ (plain_get t "lane" H)) as [? ->].
  destruct (plain_optionalString _ (plain_get t "id" H)) as [? ->].
  eexists; reflexivity.
Qed.

Lemma plain_normalizeEdge (e : value) :
  plain e = true -> is_Some (normalizeEdge Number_toString e).
Proof.
  intros H. unfold normalizeEdge.
  destruct (plain_trimmedString _ (plain_get e "from" H)) as [? ->].
  destruct (plain_trimmedString _ (plain_get e "to" H)) as [? ->].
  destruct (plain_optionalString _ (plain_get e "kind" H)) as [? ->].
  eexists; reflexivity.
Qed.

(** On a plain raw value no conversion throws: [normalizeAIOutput]
    returns an output. *)
Theorem normalizeAIOutput_total (raw : value) :
  plain raw = true -> exists out, normalizeAIOutput Number_toString raw = Some out.
Proof.
  intros H. unfold normalizeAIOutput.
  destruct (proj2 (mapM_is_Some (normalizeTask Number_toString)
                     (toArray (get (get raw "workplan") "tasks")))) as [mapped ->].
  { eapply Forall_impl; [apply plain_toArray, plain_get, plain_get, H|].
    intros t Ht. now apply plain_normalizeTask. }
  destruct (proj2 (mapM_is_Some (normalizeEdge Number_toString)
                     (toArray (get raw "workflow_edges")))) as [mappedEdges ->].
  { eapply Forall_impl; [apply plain_toArray, plain_get, H|].
    intros e He. now apply plain_normalizeEdge. }
  destruct (plain_toString (orElse (get raw "summary_md") (VStr []))) as [s Hs].
  { apply plain_orElse; [apply plain_get, H | reflexivity]. }
  rewrite Hs. eexists; reflexivity.
Qed.

End NormalizerFacts.

(** The sample plan normalizes to [rawPlanOut], whose titles and edge ends
    are non-empty and trimmed. *)
Lemma normalizeAIOutput_solid_sample :
  AiOutputs.normalizeAIOutput Spec.plainNumber Spec.rawPlan = Some Spec.rawPlanOut
  /\ Forall (fun t => Spec.solid (AiOutputs.t_title t))
       (AiOutputs.tasks (AiOutputs.workplan Spec.rawPlanOut))
  /\ Forall (fun e => Spec.solid (AiOutputs.e_from e) /\ Spec.solid (AiOutputs.e_to e))
       (AiOutputs.workflow_edges Spec.rawPlanOut).
Proof.
  split; [vm_compute; reflexivity|].
  apply (normalizeAIOutput_solid Spec.plainNumber Spec.rawPlan Spec.rawPlanOut).
  vm_compute; reflexivity.
Defined.

(** Normalizing the sample output again gives the same output. *)
Lemma normalizeAIOutput_idempotent_sample :
  AiOutputs.normalizeAIOutput Spec.plainNumber Spec.rawPlan = Some Spec.rawPlanOut
  /\ Spec.canonical Spec.rawPlanOut = true
  /\ AiOutputs.normalizeAIOutput Spec.plainNumber (AiOutputs.outputValue Spec.rawPlanOut)
     = Some Spec.rawPlanOut.
Proof.
  split; [vm_compute; reflexivity|].
  split; [vm_compute; reflexivity|].
  apply (normalizeAIOutput_idempotent Spec.plainNumber Spec.rawPlan Spec.rawPlanOut);
    vm_compute; reflexivity.
Defined.

(** The sample plan is plain, and is normalized. *)
Lemma normalizeAIOutput_total_sample :
  Spec.plain Spec.rawPlan = true
  /\ exists out, AiOutputs.normalizeAIOutput Spec.plainNumber Spec.rawPlan = Some out.
Proof.
  split; [vm_compute; reflexivity|].
  apply (normalizeAIOutput_total Spec.plainNumber Spec.rawPlan). vm_compute; reflexivity.
Defined.

(** C9 as stated fails: a priority given as the empty array is truthy and
    its string is empty, so the first pass stores the empty string and the
    second pass, which finds it falsy, stores nothing. *)
Lemma normalizeAIOutput_not_idempotent :
  AiOutputs.normalizeAIOutput Spec.plainNumber Spec.rawEmptyArray = Some Spec.rawEmptyArrayOnce
  /\ AiOutputs.normalizeAIOutput Spec.plainNumber (AiOutputs.outputValue Spec.rawEmptyArrayOnce)
     = Some Spec.rawEmptyArrayTwice
  /\ List.map AiOutputs.t_priority (AiOutputs.tasks (AiOutputs.workplan Spec.rawEmptyArrayOnce))
     = [Some []]
  /\ List.map AiOutputs.t_priority (AiOutputs.tasks (AiOutputs.workplan Spec.rawEmptyArrayTwice))
     = [None].
Proof. repeat split; vm_compute; reflexivity. Qed.

(** ** The priority of a task *)

Section PriorityFacts.
Import JsString JsValue AISummary Spec.

Variable Number_toString : float -> jsstring.
Variable randomUUID : nat -> jsstring.

Lemma prioOf_closed (p : option PriorityProp) :
  prioOf Number_toString p = 0%Z \/ prioOf Number_toString p = 1%Z
  \/ prioOf Number_toString p = 2%Z.
Proof.
  unfold prioOf.
  destruct (_ || _); [now left|].
  destruct (_ || _); [now right; left | now right; right].
Qed.

Lemma geminiMap_closed (calls : nat) (ts : list PropTask) :
  Forall (fun d => dt_prio d = 0%Z \/ dt_prio d = 1%Z \/ dt_prio d = 2%Z)
    (geminiMap Number_toString randomUUID calls ts).
Proof.
  revert calls. induction ts as [|t ts IH]; intros calls; simpl; [constructor|].
  destruct (p_id t) as [[|c i]|]; constructor; simpl; auto using prioOf_closed.
Qed.

(** C3, as amended. [normalizeAIOutput] keeps a priority that is a
    non-empty string as it is and leaves an absent one absent.  The
    closed set is that of the summary view: every task [geminiTasks]
    returns has priority 0, 1 or 2, with 0 for "P0", "critical",
    "blocker", "must" and "0", 1 for "P1", "important", "high" and "1",
    and 2 for an absent or unrecognized priority.  On the wall, the
    title of a task without priority is marked P1. *)
Theorem priority_closed_set :
  (forall ts, Forall (fun d => dt_prio d = 0%Z \/ dt_prio d = 1%Z \/ dt_prio d = 2%Z)
                (geminiTasks Number_toString randomUUID ts))
  /\ List.map (fun w => prioOf Number_toString (Some (PrioText (js w))))
       ["P0"; "critical"; "blocker"; "must"; "0"]%string = [0; 0; 0; 0; 0]%Z
  /\ List.map (fun w => prioOf Number_toString (Some (PrioText (js w))))
       ["P1"; "important"; "high"; "1"]%string = [1; 1; 1; 1]%Z
  /\ List.map (fun w => prioOf Number_toString (Some (PrioText (js w))))
       ["P2"; "low"; "2"; ""]%string = [2; 2; 2; 2]%Z
  /\ prioOf Number_toString None = 2%Z
  /\ (forall title c s,
        AiOutputs.t_priority <$>
          AiOutputs.normalizeTask Number_toString
            (VObj [(js "title", VStr title); (js "priority", VStr (c :: s))])
        = Some (Some (c :: s)))
  /\ (forall title,
        AiOutputs.t_priority <$>
          AiOutputs.normalizeTask Number_toString (VObj [(js "title", VStr title)])
        = Some None)
  /\ (forall c title,
        PlanApply.summarizeTaskTitle (Some (c :: title)) None None None
        = js "[P1] " ++ c :: title).
Proof.
  split; [intros ts; apply geminiMap_closed|].
  repeat split; try (vm_compute; reflexivity).
  intros c title. unfold PlanApply.summarizeTaskTitle. simpl.
  now rewrite app_nil_r.
Qed.

End PriorityFacts.

(** C3 as stated fails: the normalizer hands the severity word on as the
    priority of the task, and that word is none of P0, P1, P2. *)
Lemma normalizeAIOutput_keeps_severity_word :
  AiOutputs.normalizeAIOutput Spec.plainNumber Spec.rawCritical = Some Spec.rawCriticalOut
  /\ List.map AiOutputs.t_priority (AiOutputs.tasks (AiOutputs.workplan Spec.rawCriticalOut))
     = [Some (js "critical")]
  /\ existsb (JsString.eqb (js "critical")) [js "P0"; js "P1"; js "P2"] = false.
Proof. repeat split; vm_compute; reflexivity. Qed.

(** ** The heuristic deriver *)

Section ArrayFacts.
Context {A : Type} (key : A -> Z).

#[local] Abbreviation byKey := (fun a b : A => (key a - key b)%Z).
#[local] Abbreviation keyLe := (fun a b : A => (key a <= key b)%Z).

Lemma insertBy_length (x : A) (l : list A) :
  List.length (JsArray.insertBy byKey x l) = S (List.length l).
Proof.
  induction l as [|y l IH]; simpl; [reflexivity|].
  destruct (key x - key y <=? 0)%Z; simpl; auto.
Qed.

Lemma sort_length (l : list A) : List.length (JsArray.sort byKey l) = List.length l.
Proof.
  induction l as [|x l IH]; simpl; [reflexivity|].
  unfold JsArray.sort in *. simpl. now rewrite insertBy_length, IH.
Qed.

Lemma insertBy_sorted (x : A) (l : list A) :
  Sorted keyLe l -> Sorted keyLe (JsArray.insertBy byKey x l).
Proof.
  induction l as [|y l IH]; intros S; simpl.
  - repeat constructor.
  - destruct (key x - key y <=? 0)%Z eqn:E.
    + constructor; [exact S|]. constructor. lia.
    + apply Sorted_inv in S as [S H]. constructor; [auto|].
      destruct l as [|z l]; simpl.
      * constructor. lia.
      * destruct (key x - key z <=? 0)%Z; constructor.
        -- lia.
        -- now apply HdRel_inv in H.
Qed.

Lemma sort_sorted (l : list A) : Sorted keyLe (JsArray.sort byKey l).
Proof.
  induction l as [|x l IH]; [constructor|].
  apply insertBy_sorted, IH.
Qed.

(** Insertion moves [x] only past elements of another key. *)
Lemma insertBy_stable (p : Z) (x : A) (l : list A) :
  List.filter (fun t => (key t =? p)%Z) (JsArray.insertBy byKey x l)
  = List.filter (fun t => (key t =? p)%Z) (x :: l).
Proof.
  induction l as [|y l IH]; [reflexivity|].
  simpl JsArray.insertBy.
  destruct (key x - key y <=? 0)%Z eqn:E; [reflexivity|].
  simpl in *. rewrite IH.
  destruct (key x =? p)%Z eqn:Ex, (key y =? p)%Z eqn:Ey; try reflexivity.
  lia.
Qed.

Lemma sort_stable (p : Z) (l : list A) :
  List.filter (fun t => (key t =? p)%Z) (JsArray.sort byKey l)
  = List.filter (fun t => (key t =? p)%Z) l.
Proof.
  induction l as [|x l IH]; [reflexivity|].
  unfold JsArray.sort in *. simpl fold_right.
  rewrite insertBy_stable. simpl. now rewrite IH.
Qed.

End ArrayFacts.

Section DeriverFacts.
Import JsString JsRegExp AISummary Spec.

Variable randomUUID : nat -> jsstring.

Lemma collapseSpaces_blank_run (s : jsstring) :
  forallb isWhiteSpace s = true -> collapseSpaces true s = [].
Proof.
  induction s as [|c r IH]; [reflexivity|].
  simpl. intros [W R]%andb_prop. rewrite W. auto.
Qed.

Lemma splitSentences_blank (text : jsstring) :
  forallb isWhiteSpace text = true -> splitSentences text = [].
Proof.
  destruct text as [|c r]; [reflexivity|].
  simpl. intros [W R]%andb_prop.
  unfold splitSentences. simpl. rewrite W, collapseSpaces_blank_run by exact R.
  reflexivity.
Qed.

Lemma discovered_blank (text : jsstring) (max : Z) :
  trim text = [] -> discovered randomUUID text max = [].
Proof.
  intros H. unfold discovered, rawLines.
  now rewrite splitSentences_blank by now apply trim_nil_blank.
Qed.

(** The loop never holds more than [max] tasks once [max] is positive. *)
Lemma collectTasks_bound (max : Z) (raw : list jsstring) (seen : gset jsstring)
    (tasks : list DerivedTask) :
  (Z.of_nat (List.length tasks) < max)%Z ->
  (Z.of_nat (List.length (collectTasks randomUUID max raw seen tasks)) <= max)%Z.
Proof.
  revert seen tasks. induction raw as [|line rest IH]; intros seen tasks H; simpl; [lia|].
  destruct (isEmpty line || (List.length line <? 6)%nat); [auto|].
  destruct (negb (looksActionable line)); [auto|].
  destruct (bool_decide _); [auto|].
  rewrite length_app. cbn [List.length].
  destruct (Z.of_nat (List.length tasks + 1) >=? max)%Z eqn:E.
  - rewrite length_app. cbn [List.length]. lia.
  - apply IH. rewrite length_app. cbn [List.length].
    rewrite Z.geb_leb in E. apply Z.leb_gt in E. lia.
Qed.

(** For a bound of at least one, the deriver returns at most that many
    tasks. *)
Theorem deriveTasksFromTranscript_bound (text : jsstring) (max : Z) :
  (1 <= max)%Z ->
  (Z.of_nat (List.length (deriveTasksFromTranscript randomUUID text (Some max))) <= max)%Z.
Proof.
  intros H. unfold deriveTasksFromTranscript. simpl.
  destruct (isEmpty (trim text)); [simpl; lia|].
  rewrite (sort_length dt_prio). apply collectTasks_bound. simpl. lia.
Qed.

(** Empty or white-space-only text yields no task. *)
Theorem deriveTasksFromTranscript_blank (text : jsstring) (max : option Z) :
  forallb isWhiteSpace text = true -> deriveTasksFromTranscript randomUUID text max = [].
Proof.
  intros H. unfold deriveTasksFromTranscript. now rewrite trim_blank.
Qed.

(** C8. The list [deriveTasksFromTranscript] returns is sorted by
    priority, each task's priority at most that of the task after it, and
    for every priority the tasks of that priority stand in the order in
    which the loop discovered them. *)
Theorem deriveTasksFromTranscript_sorted_stable (text : jsstring) (max : option Z) :
  Sorted (fun a b => (dt_prio a <= dt_prio b)%Z)
    (deriveTasksFromTranscript randomUUID text max)
  /\ forall p : Z,
       List.filter (fun t => (dt_prio t =? p)%Z)
         (deriveTasksFromTranscript randomUUID text max)
       = List.filter (fun t => (dt_prio t =? p)%Z)
           (discovered randomUUID text (default 8%Z max)).
Proof.
  unfold deriveTasksFromTranscript.
  destruct (isEmpty (trim text)) eqn:E.
  - split; [constructor|]. intros p.
    rewrite discovered_blank; [reflexivity|]. now destruct (trim text).
  - split; [apply (sort_sorted dt_prio) | intros p; apply (sort_stable dt_prio)].
Qed.

(** C5, as amended. The sentence "This is a P0 blocker: fix the crash."
    yields no task: its priority scan gives 0, but it does not look
    actionable.  With the verb first, "Fix the crash: this is a P0
    blocker." yields exactly one task, of priority 0. *)
Theorem derive_priority_keyword :
  deriveTasksFromTranscript randomUUID (js "This is a P0 blocker: fix the crash.") (Some 8%Z)
    = []
  /\ looksActionable (js "This is a P0 blocker: fix the crash.") = false
  /\ detectPriority (js "This is a P0 blocker: fix the crash.") = 0%Z
  /\ deriveTasksFromTranscript randomUUID (js "Fix the crash: this is a P0 blocker.")
       (Some 8%Z)
     = [mkDerivedTask (randomUUID 0%nat) (js "Fix the crash: this is a P0 blocker.")
          Frontend 0%Z].
Proof. repeat split; vm_compute; reflexivity. Qed.

(** Two sentences, the second opening with "Then": two tasks in the order
    of the text, the second keeping its "Then" (the clause splitter needs a
    space before the word). *)
Theorem derive_simple_transcript :
  deriveTasksFromTranscript randomUUID (js "Build the login page. Then fix the API bug.")
    (Some 8%Z)
  = [mkDerivedTask (randomUUID 0%nat) (js "Build the login page.") Frontend 2%Z;
     mkDerivedTask (randomUUID 1%nat) (js "Then fix the API bug.") Backend 2%Z].
Proof. vm_compute; reflexivity. Qed.



End DeriverFacts.



(** Three actionable sentences and the bound 2. *)
Lemma deriveTasksFromTranscript_bound_sample :
  (1 <= 2)%Z
  /\ (Z.of_nat
        (List.length
           (AISummary.deriveTasksFromTranscript Spec.sampleId
              (js "Fix the crash. Add a button. Build the page.") (Some 2%Z))) <= 2)%Z.
Proof.
  split; [lia|].
  apply (deriveTasksFromTranscript_bound Spec.sampleId
           (js "Fix the crash. Add a button. Build the page.") 2).
  lia.
Defined.

(** A transcript of two spaces and a line feed. *)
Lemma deriveTasksFromTranscript_blank_sample :
  forallb JsString.isWhiteSpace [32; 32; 10] = true
  /\ AISummary.deriveTasksFromTranscript Spec.sampleId [32; 32; 10] None = [].
Proof.
  split; [reflexivity|].
  apply (deriveTasksFromTranscript_blank Spec.sampleId [32; 32; 10] None). reflexivity.
Defined.

(** C5 as stated fails: the sentence yields no task at all. *)
Lemma derive_priority_keyword_none :
  AISummary.deriveTasksFromTranscript Spec.sampleId
    (js "This is a P0 blocker: fix the crash.") (Some 8%Z) = [].
Proof. vm_compute; reflexivity. Qed.

(** ** The wall applier *)

Section ApplierFacts.
Import JsString Three Db PlanApply Spec.

Variable uid : nat -> jsstring.
Variable applyQuaternion : Vector3 -> Quaternion -> Vector3.

Lemma appended_refl {A} (P : A -> Prop) (l : list A) : appended P l l.
Proof. exists []. split; [now rewrite app_nil_r | constructor]. Qed.

Lemma appended_trans {A} (P : A -> Prop) (l1 l2 l3 : list A) :
  appended P l1 l2 -> appended P l2 l3 -> appended P l1 l3.
Proof.
  intros (a & -> & Ha) (b & -> & Hb). exists (a ++ b).
  split; [now rewrite app_assoc | now apply Forall_app].
Qed.

Lemma appended_snoc {A} (P : A -> Prop) (l : list A) (x : A) : P x -> appended P l (l ++ [x]).
Proof. intros H. exists [x]. split; [reflexivity | now repeat constructor]. Qed.

Lemma appended_weaken {A} (P Q : A -> Prop) (l l' : list A) :
  (forall x, P x -> Q x) -> appended P l l' -> appended Q l l'.
Proof.
  intros H (a & -> & Ha). exists a. split; [reflexivity|].
  eapply Forall_impl; eauto.
Qed.

Lemma grows_refl (b : jsstring) (w : World) : grows b w w.
Proof. split; apply appended_refl. Qed.

Lemma grows_trans (b : jsstring) (w1 w2 w3 : World) :
  grows b w1 w2 -> grows b w2 w3 -> grows b w1 w3.
Proof. intros [N1 E1] [N2 E2]. split; eapply appended_trans; eauto. Qed.

Lemma bind_run {A B} (m : M A) (f : A -> M B) (w w1 : World) (a : A) :
  m w = (inr a, w1) -> (m ≫= f) w = f a w1.
Proof. intros H. unfold mbind, M_bind. now rewrite H. Qed.

Lemma placeNote_run (args : PlaceNoteArgs) (w : World) :
  a_aiGenerated args = Some true ->
  exists w', placeNote uid args w = (inr (uid (uidCalls w)), w')
             /\ grows (a_boardId args) w w'.
Proof.
  intros Hai. eexists. split.
  - unfold placeNote. erewrite bind_run; reflexivity.
  - split.
    + unfold readNotes at 2. simpl. rewrite lookup_insert_eq. simpl.
      apply appended_snoc. rewrite Hai. repeat split.
    + apply appended_refl.
Qed.

Lemma addEdge_run (b from to : jsstring) (w : World) :
  from <> to ->
  exists w', addEdge uid b from to (Some (KindFlags (mkEdgeExtra (Some true) None))) None w
             = (inr (uid (uidCalls w)), w')
             /\ grows b w w'.
Proof.
  intros Hne. eexists. split; [reflexivity|]. split.
  - apply appended_refl.
  - unfold readEdges at 2. simpl. rewrite lookup_insert_eq. simpl.
    apply appended_snoc. repeat split. exact Hne.
Qed.

Lemma placeTasks_run (L : Layout) (lane : jsstring) (lx r : nat) (ts : list Task)
    (ids : gmap jsstring jsstring) (w : World) :
  exists ids' w', placeTasks uid L lane lx r ts ids w = (inr ids', w')
                  /\ grows (l_boardId L) w w'.
Proof.
  revert r ids w. induction ts as [|t rest IH]; intros r ids w.
  - exists ids, w. split; [reflexivity | apply grows_refl].
  - cbn [placeTasks].
    match goal with
    | |- context [placeNote uid ?a] =>
        destruct (placeNote_run a w eq_refl) as (w1 & Hrun & G1)
    end.
    cbn [a_boardId] in G1.
    match goal with
    | |- context [mbind ?f _] =>
        destruct (IH (S r)
                    (<[default [] (orStr (task_id t) (Some (task_title t)))
                       := uid (uidCalls w)]> ids) w1) as (ids' & w' & Hrest & G2)
    end.
    exists ids', w'. split; [|eapply grows_trans; eauto].
    erewrite bind_run by exact Hrun. exact Hrest.
Qed.

Lemma placeLanes_run (L : Layout) (lx : nat) (lanes : list jsstring)
    (ids : gmap jsstring jsstring) (w : World) :
  exists ids' w', placeLanes uid L lx lanes ids w = (inr ids', w')
                  /\ grows (l_boardId L) w w'.
Proof.
  revert lx ids w. induction lanes as [|lane rest IH]; intros lx ids w.
  - exists ids, w. split; [reflexivity | apply grows_refl].
  - cbn [placeLanes].
    match goal with
    | |- context [placeNote uid ?a] =>
        destruct (placeNote_run a w eq_refl) as (w1 & Hrun & G1)
    end.
    cbn [a_boardId] in G1.
    destruct (placeTasks_run L lane lx 0 (default [] (l_byLane L !! lane)) ids w1)
      as (ids1 & w2 & Htasks & G2).
    destruct (IH (S lx) ids1 w2) as (ids' & w' & Hrest & G3).
    exists ids', w'. split; [|eauto using grows_trans].
    erewrite bind_run by exact Hrun.
    erewrite bind_run by exact Htasks. exact Hrest.
Qed.

Lemma wirable_distinct (a b : option jsstring) :
  wirable a b = true -> default [] a <> default [] b.
Proof.
  unfold wirable. intros [_ H]%andb_prop E.
  apply negb_true_iff in H. rewrite E in H.
  assert (eqb (default [] b) (default [] b) = true) by now apply eqb_eq.
  congruence.
Qed.

Lemma wireEdges_run (b : jsstring) (ids : gmap jsstring jsstring) (es : list WorkflowEdge)
    (w : World) :
  exists w', wireEdges uid b ids es w = (inr tt, w') /\ grows b w w'.
Proof.
  revert w. induction es as [|e rest IH]; intros w.
  - exists w. split; [reflexivity | apply grows_refl].
  - cbn [wireEdges].
    destruct (wirable _ _) eqn:W; [|apply IH].
    destruct (addEdge_run b _ _ w (wirable_distinct _ _ W)) as (w1 & Hrun & G1).
    destruct (IH w1) as (w' & Hrest & G2).
    exists w'. split; [|eauto using grows_trans].
    erewrite bind_run by exact Hrun. exact Hrest.
Qed.

(** Past its two guards, [applyPlanToWall] runs to the end. *)
Lemma applyPlanToWall_run (b : jsstring) (xr : XR) (aiOut : option AIOutput)
    (opts : option Options) (w : World) (t : Task) (ts : list Task) (board : Object3D) :
  tasksToApply aiOut = t :: ts -> boardOf xr = Some board ->
  exists w', applyPlanToWall uid applyQuaternion b xr aiOut opts w = (inr tt, w')
             /\ grows b w w'.
Proof.
  intros Ht Hb. unfold applyPlanToWall. rewrite Ht, Hb.
  destruct (aiOut ≫= workplan) as [wp|] eqn:Ewp.
  2:{ unfold tasksToApply in Ht. rewrite Ewp in Ht. discriminate. }
  destruct (placeLanes_run (layoutOf applyQuaternion b board wp (t :: ts) opts) 0
              (lanesOf wp) ∅ w) as (ids & w1 & Hnotes & G1).
  destruct (wireEdges_run b ids (default [] (aiOut ≫= workflow_edges)) w1)
    as (w' & Hedges & G2).
  exists w'. split; [|eauto using grows_trans].
  erewrite bind_run by exact Hnotes. exact Hedges.
Qed.

Lemma applyPlanToWall_no_tasks (b : jsstring) (xr : XR) (aiOut : option AIOutput)
    (opts : option Options) (w : World) :
  tasksToApply aiOut = [] ->
  applyPlanToWall uid applyQuaternion b xr aiOut opts w
  = (inl (JsError (js "No tasks to apply.")), w).
Proof.
  intros H. unfold applyPlanToWall. rewrite H.
  now destruct (aiOut ≫= workplan).
Qed.

Lemma applyPlanToWall_no_board (b : jsstring) (xr : XR) (aiOut : option AIOutput)
    (opts : option Options) (w : World) :
  tasksToApply aiOut <> [] -> boardOf xr = None ->
  applyPlanToWall uid applyQuaternion b xr aiOut opts w
  = (inl (JsError (js "Board not placed yet.")), w).
Proof.
  intros Ht Hb. unfold applyPlanToWall. rewrite Hb.
  destruct (aiOut ≫= workplan) as [wp|] eqn:Ewp.
  - destruct (tasksToApply aiOut); [contradiction | reflexivity].
  - unfold tasksToApply in Ht. rewrite Ewp in Ht. contradiction.
Qed.

(** Whatever the arguments, the board only grows. *)
Lemma applyPlanToWall_grows (b : jsstring) (xr : XR) (aiOut : option AIOutput)
    (opts : option Options) (w : World) :
  grows b w (snd (applyPlanToWall uid applyQuaternion b xr aiOut opts w)).
Proof.
  destruct (tasksToApply aiOut) as [|t ts] eqn:Ht.
  - rewrite applyPlanToWall_no_tasks by exact Ht. apply grows_refl.
  - destruct (boardOf xr) as [board|] eqn:Hb.
    + destruct (applyPlanToWall_run b xr aiOut opts w t ts board Ht Hb) as (w' & -> & G).
      exact G.
    + rewrite applyPlanToWall_no_board; [apply grows_refl | now rewrite Ht | exact Hb].
Qed.

Lemma wireEdges_skip (b : jsstring) (ids : gmap jsstring jsstring)
    (es1 es2 : list WorkflowEdge) (e : WorkflowEdge) (w : World) :
  wirable (resolve ids (we_from e)) (resolve ids (we_to e)) = false ->
  wireEdges uid b ids (es1 ++ e :: es2) w = wireEdges uid b ids (es1 ++ es2) w.
Proof.
  intros H. revert w. induction es1 as [|x es1 IH]; intros w.
  - cbn [app wireEdges]. now rewrite H.
  - cbn [app wireEdges].
    destruct (wirable (resolve ids (we_from x)) (resolve ids (we_to x))); [|apply IH].
    unfold mbind, M_bind. destruct (addEdge _ _ _ _ _ _ w) as [[err|id] w1]; [reflexivity|].
    apply IH.
Qed.

Lemma unresolved_not_wirable (a b : option jsstring) :
  truthyStr a = false \/ truthyStr b = false -> wirable a b = false.
Proof.
  unfold wirable. intros [-> | ->]; [reflexivity|].
  now destruct (truthyStr a).
Qed.

(** C2, as amended. Without tasks (the list empty or absent)
    [applyPlanToWall] fails with "No tasks to apply."; with tasks and
    without a board it fails with "Board not placed yet."; either way the
    world it leaves is the world it found. *)
Theorem applyPlanToWall_preconditions (b : jsstring) (xr : XR) (aiOut : option AIOutput)
    (opts : option Options) (w : World) :
  (tasksToApply aiOut = [] ->
   applyPlanToWall uid applyQuaternion b xr aiOut opts w
   = (inl (JsError (js "No tasks to apply.")), w))
  /\ (tasksToApply aiOut <> [] -> boardOf xr = None ->
      applyPlanToWall uid applyQuaternion b xr aiOut opts w
      = (inl (JsError (js "Board not placed yet.")), w)).
Proof.
  split; [apply applyPlanToWall_no_tasks | apply applyPlanToWall_no_board].
Qed.

(** Every edge [applyPlanToWall] adds carries its flags in the [kind]
    field and has no [aiGenerated] field. *)
Lemma applyPlanToWall_edges_flags (b : jsstring) (xr : XR) (aiOut : option AIOutput)
    (opts : option Options) (w : World) :
  appended flagsInKind (readEdges b w)
    (readEdges b (snd (applyPlanToWall uid applyQuaternion b xr aiOut opts w))).
Proof.
  destruct (applyPlanToWall_grows b xr aiOut opts w) as [_ E].
  eapply appended_weaken; [|exact E]. now intros e [_ F].
Qed.

(** With a task to apply and a board, [applyPlanToWall] ends without
    error. *)
Theorem applyPlanToWall_succeeds (b : jsstring) (xr : XR) (aiOut : option AIOutput)
    (opts : option Options) (w : World) (t : Task) (ts : list Task) (board : Object3D) :
  tasksToApply aiOut = t :: ts -> boardOf xr = Some board ->
  fst (applyPlanToWall uid applyQuaternion b xr aiOut opts w) = inr tt.
Proof.
  intros Ht Hb.
  now destruct (applyPlanToWall_run b xr aiOut opts w t ts board Ht Hb) as (w' & -> & _).
Qed.

End ApplierFacts.

Section ApplierExamples.
Import JsString Three Db PlanApply.

(** A plan without tasks on a placed board, and a plan with tasks on a
    scene without board. *)
Lemma applyPlanToWall_preconditions_sample :
  applyPlanToWall Spec.sampleId Spec.rotate (js "wall") Spec.placed (Some Spec.outNoTasks)
    None Spec.emptyWorld
  = (inl (JsError (js "No tasks to apply.")), Spec.emptyWorld)
  /\ applyPlanToWall Spec.sampleId Spec.rotate (js "wall") Spec.unplaced (Some Spec.outAB)
       None Spec.emptyWorld
     = (inl (JsError (js "Board not placed yet.")), Spec.emptyWorld).
Proof.
  split.
  - apply (proj1 (applyPlanToWall_preconditions Spec.sampleId Spec.rotate (js "wall")
                    Spec.placed (Some Spec.outNoTasks) None Spec.emptyWorld)).
    reflexivity.
  - apply (proj2 (applyPlanToWall_preconditions Spec.sampleId Spec.rotate (js "wall")
                    Spec.unplaced (Some Spec.outAB) None Spec.emptyWorld)).
    + vm_compute. discriminate.
    + reflexivity.
Defined.

(** C2 as stated fails: without a board and without tasks, the failure is
    the one of the missing tasks, not "Board not placed yet.". *)
Lemma applyPlanToWall_no_tasks_comes_first :
  boardOf Spec.unplaced = None
  /\ applyPlanToWall Spec.sampleId Spec.rotate (js "wall") Spec.unplaced
       (Some Spec.outNoTasks) None Spec.emptyWorld
     = (inl (JsError (js "No tasks to apply.")), Spec.emptyWorld)
  /\ JsString.eqb (js "No tasks to apply.") (js "Board not placed yet.") = false.
Proof. repeat split; vm_compute; reflexivity. Qed.

(** C1 on the code. Tasks "A" and "B" become the notes id1 and id2 (id0 is
    the lane header) and the edge from "A" to "B" resolves to them; the
    record stored for it holds the flags object as its [kind] and has no
    [aiGenerated] field.  No edge the applier adds ever has one. *)
Theorem applyPlanToWall_edge_untagged :
  readEdges (js "wall")
    (snd (applyPlanToWall Spec.sampleId Spec.rotate (js "wall") Spec.placed (Some Spec.outAB)
            None Spec.emptyWorld))
  = [mkStoredEdge (js "id3") (js "id1") (js "id2")
       (KindFlags (mkEdgeExtra (Some true) None)) None None]
  /\ forall uid applyQuaternion b xr aiOut opts w,
       Spec.appended Spec.flagsInKind (readEdges b w)
         (readEdges b (snd (applyPlanToWall uid applyQuaternion b xr aiOut opts w))).
Proof.
  split; [vm_compute; reflexivity|].
  intros. apply applyPlanToWall_edges_flags.
Qed.

(** The plan of tasks "A" and "B" on the placed board. *)
Lemma applyPlanToWall_succeeds_sample :
  tasksToApply (Some Spec.outAB) = [Spec.taskTitled "A"; Spec.taskTitled "B"]
  /\ boardOf Spec.placed = Some Spec.wallBoard
  /\ fst (applyPlanToWall Spec.sampleId Spec.rotate (js "wall") Spec.placed (Some Spec.outAB)
            None Spec.emptyWorld) = inr tt.
Proof.
  split; [reflexivity|]. split; [reflexivity|].
  apply (applyPlanToWall_succeeds Spec.sampleId Spec.rotate (js "wall") Spec.placed
           (Some Spec.outAB) None Spec.emptyWorld (Spec.taskTitled "A") [Spec.taskTitled "B"]
           Spec.wallBoard); reflexivity.
Defined.

(** The lanes Frontend and Backend with one task each and one edge across
    them: four notes (each header before the task of its lane), then one
    edge between the two task notes; the Frontend column lies to the left
    of the Backend column; one event per record, notes first. *)
Theorem applyPlanToWall_two_lanes :
  let w :=
    snd (applyPlanToWall Spec.sampleId Spec.rotate (js "wall") Spec.placed
           (Some Spec.outTwoLanes) None Spec.emptyWorld) in
  List.map (fun n => (note_id n, n_text (note_doc n))) (readNotes (js "wall") w)
  = [(js "id0", [55357; 56770] ++ js " Frontend"); (js "id1", js "[P1] Build UI");
     (js "id2", [55357; 56770] ++ js " Backend"); (js "id3", js "[P1] Build API")]
  /\ List.map (fun e => (edge_from e, edge_to e)) (readEdges (js "wall") w)
     = [(js "id1", js "id3")]
  /\ match List.map (fun n => fst (fst (position (n_pose (note_doc n)))))
             (readNotes (js "wall") w) with
     | [Some x0; Some x1; Some x2; Some x3] =>
         PrimFloat.eqb x0 x1 && PrimFloat.eqb x2 x3 && PrimFloat.ltb x0 x2
     | _ => false
     end = true
  /\ dispatched w
     = [(notes_updated, js "wall"); (notes_updated, js "wall"); (notes_updated, js "wall");
        (notes_updated, js "wall"); (edges_updated, js "wall")].
Proof. repeat split; vm_compute; reflexivity. Qed.

End ApplierExamples.

(** ** The wall applier, step by step *)

Section ApplierTrace.
Import JsString Three Db PlanApply Spec.

Variable uid : nat -> jsstring.
Variable applyQuaternion : Vector3 -> Quaternion -> Vector3.

(** The cap test of the default 8, on the lengths a lane can have. *)
Lemma cap_eight (n : nat) :
  (n <= 8)%nat -> PrimFloat.ltb (ofNat n) 8%float = (n <? 8)%nat.
Proof.
  intros H.
  do 9 (destruct n as [|n]; [vm_compute; reflexivity|]). lia.
Qed.

Lemma emptyLanes_lookup (lanes : list jsstring) (m : gmap jsstring (list Task))
    (lane : jsstring) :
  foldl (fun byLane l => <[l := []]> byLane) m lanes !! lane
  = if bool_decide (lane ∈ lanes) then Some [] else m !! lane.
Proof.
  revert m. induction lanes as [|l lanes IH]; intros m; [reflexivity|].
  cbn [foldl]. rewrite IH.
  destruct (decide (l = lane)) as [->|Hne].
  - rewrite lookup_insert_eq.
    rewrite (bool_decide_eq_true_2 (lane ∈ lane :: lanes)) by apply list_elem_of_here.
    now destruct (bool_decide (lane ∈ lanes)).
  - rewrite lookup_insert_ne by exact Hne.
    destruct (bool_decide (lane ∈ lanes)) eqn:E.
    + apply bool_decide_eq_true_1 in E.
      now rewrite (bool_decide_eq_true_2 (lane ∈ l :: lanes)) by now apply list_elem_of_further.
    + apply bool_decide_eq_false_1 in E.
      rewrite (bool_decide_eq_false_2 (lane ∈ l :: lanes)); [reflexivity|].
      rewrite elem_of_cons. intros [?|?]; congruence.
Qed.

Lemma firstEight_length (lanes : list jsstring) (lane : jsstring) (p : list Task) :
  (List.length (firstEight lanes lane p) <= 8)%nat.
Proof. apply firstn_le_length. Qed.

Lemma firstEight_snoc (lanes : list jsstring) (lane : jsstring) (p : list Task) (t : Task) :
  firstEight lanes lane (p ++ [t])
  = if eqb (laneOfTask lanes t) lane
    then (if (List.length (firstEight lanes lane p) <? 8)%nat
          then firstEight lanes lane p ++ [t]
          else firstEight lanes lane p)
    else firstEight lanes lane p.
Proof.
  unfold firstEight. rewrite List.filter_app. cbn [List.filter].
  destruct (eqb (laneOfTask lanes t) lane); [|now rewrite app_nil_r].
  set (f := List.filter _ p).
  rewrite length_take.
  destruct (Nat.ltb_spec (8 `min` List.length f) 8) as [Hlt|Hge].
  - rewrite (take_ge f) by lia. apply take_ge. rewrite length_app. cbn. lia.
  - rewrite take_app_le by lia. reflexivity.
Qed.

(** Under the default cap every lane of the plan holds the first eight
    of its tasks, in the order of the plan. *)
Theorem groupByLane_first_eight (lanes : list jsstring) (ts : list Task) (lane : jsstring) :
  In lane lanes ->
  groupByLane 8%float lanes ts !! lane = Some (firstEight lanes lane ts).
Proof.
  intros Hin. unfold groupByLane.
  set (step := fun (byLane : gmap jsstring (list Task)) (t : Task) => _).
  assert (forall rest p m,
            (forall l, In l lanes -> m !! l = Some (firstEight lanes l p)) ->
            forall l, In l lanes ->
              foldl step m rest !! l = Some (firstEight lanes l (p ++ rest))) as Hfold.
  { induction rest as [|t rest IH]; intros p m Hm l Hl.
    - rewrite app_nil_r. now apply Hm.
    - cbn [foldl].
      replace (p ++ t :: rest) with ((p ++ [t]) ++ rest) by now rewrite <- app_assoc.
      apply IH; [|exact Hl].
      intros l' Hl'. rewrite firstEight_snoc. unfold step.
      destruct (eqb (laneOfTask lanes t) l') eqn:E.
      + apply eqb_eq in E. subst l'. rewrite (Hm _ Hl'). cbn [default from_option]. unfold id.
        rewrite cap_eight by apply firstEight_length.
        destruct (List.length (firstEight lanes (laneOfTask lanes t) p) <? 8)%nat.
        * now rewrite lookup_insert_eq.
        * now apply Hm.
      + assert (laneOfTask lanes t <> l') as Hne.
        { intros Heq. apply eqb_eq in Heq. congruence. }
        destruct (PrimFloat.ltb _ _); [rewrite lookup_insert_ne by exact Hne|];
          now apply Hm. }
  apply (Hfold ts [] _); [|exact Hin].
  intros l Hl. rewrite emptyLanes_lookup.
  now rewrite (bool_decide_eq_true_2 (l ∈ lanes)) by now apply list_elem_of_In.
Qed.

Lemma notesRun_refl (b : jsstring) (w : World) : notesRun uid b w w [].
Proof.
  repeat split; cbn; rewrite ?app_nil_r; auto.
Qed.

Lemma notesRun_trans (b : jsstring) (w1 w2 w3 : World) (ns1 ns2 : list StoredNote) :
  notesRun uid b w1 w2 ns1 -> notesRun uid b w2 w3 ns2 -> notesRun uid b w1 w3 (ns1 ++ ns2).
Proof.
  intros (R1 & F1 & E1 & D1 & U1 & I1) (R2 & F2 & E2 & D2 & U2 & I2).
  repeat split.
  - now rewrite R2, R1, app_assoc.
  - intros b' Hb. now rewrite F2, F1.
  - now rewrite E2, E1.
  - now rewrite D2, D1, length_app, replicate_add, app_assoc.
  - rewrite U2, U1, length_app. lia.
  - rewrite length_app, seq_app, !List.map_app, I1. f_equal.
    rewrite I2, U1. reflexivity.
Qed.

Lemma edgesRun_refl (b : jsstring) (w : World) : edgesRun uid b w w [].
Proof.
  repeat split; cbn; rewrite ?app_nil_r; auto.
Qed.

Lemma edgesRun_trans (b : jsstring) (w1 w2 w3 : World) (es1 es2 : list StoredEdge) :
  edgesRun uid b w1 w2 es1 -> edgesRun uid b w2 w3 es2 -> edgesRun uid b w1 w3 (es1 ++ es2).
Proof.
  intros (R1 & F1 & E1 & D1 & U1 & I1) (R2 & F2 & E2 & D2 & U2 & I2).
  repeat split.
  - now rewrite R2, R1, app_assoc.
  - intros b' Hb. now rewrite F2, F1.
  - now rewrite E2, E1.
  - now rewrite D2, D1, length_app, replicate_add, app_assoc.
  - rewrite U2, U1, length_app. lia.
  - rewrite length_app, seq_app, !List.map_app, I1. f_equal.
    rewrite I2, U1. reflexivity.
Qed.

(** One call of [placeNote]: one note, under the next identifier, with
    the title as its text, or the title and the detail on two lines. *)
Lemma placeNote_trace (args : PlaceNoteArgs) (w : World) :
  exists w' n,
    placeNote uid args w = (inr (uid (uidCalls w)), w')
    /\ notesRun uid (a_boardId args) w w' [n]
    /\ n_text (note_doc n)
       = (if truthyStr (a_detail args)
          then a_title args ++ [10] ++ default [] (a_detail args)
          else a_title args)
    /\ n_aiGenerated (note_doc n) = Some (default false (a_aiGenerated args))
    /\ position (n_pose (note_doc n))
       = storedPoint (a_b2w args (mkVector3 (a_x args) (a_y args) (a_z args))).
Proof.
  eexists. eexists. split; [|split; [|split; [|split]]].
  - unfold placeNote. erewrite bind_run; reflexivity.
  - repeat split; cbn.
    + unfold readNotes at 1. cbn. now rewrite lookup_insert_eq.
    + intros b' Hb. now rewrite lookup_insert_ne.
    + lia.
    + reflexivity.
  - reflexivity.
  - reflexivity.
  - reflexivity.
Qed.

Lemma idsWithin_insert (known : list jsstring) (ids : gmap jsstring jsstring)
    (k v : jsstring) (more : list jsstring) :
  idsWithin known ids -> In v more -> idsWithin (known ++ more) (<[k := v]> ids).
Proof.
  intros H Hv k' v' Hl. apply in_or_app.
  destruct (decide (k = k')) as [->|Hne].
  - rewrite lookup_insert_eq in Hl. injection Hl as <-. now right.
  - rewrite lookup_insert_ne in Hl by exact Hne. left. eapply H, Hl.
Qed.

Lemma idsWithin_weaken (known more : list jsstring) (ids : gmap jsstring jsstring) :
  idsWithin known ids -> idsWithin (known ++ more) ids.
Proof. intros H k v Hl. apply in_or_app. left. eapply H, Hl. Qed.

Lemma placeTasks_trace (L : Layout) (lane : jsstring) (lx r : nat) (ts : list Task)
    (ids : gmap jsstring jsstring) (w : World) (known : list jsstring) :
  idsWithin known ids ->
  exists ids' w' ns,
    placeTasks uid L lane lx r ts ids w = (inr ids', w')
    /\ notesRun uid (l_boardId L) w w' ns
    /\ List.map (fun n => n_text (note_doc n)) ns = List.map taskText ts
    /\ idsWithin (known ++ List.map note_id ns) ids'
    /\ Forall (fun n => n_aiGenerated (note_doc n) = Some true) ns
    /\ List.map (fun n => position (n_pose (note_doc n))) ns
       = List.map (fun p => storedPoint (l_b2w L p)) (rowPoints L lx r (List.length ts)).
Proof.
  revert r ids w known. induction ts as [|t rest IH]; intros r ids w known Hk.
  - exists ids, w, []. split; [|split; [|split; [|split; [|split]]]]; try reflexivity.
    + apply notesRun_refl.
    + cbn. now rewrite app_nil_r.
    + constructor.
  - cbn [placeTasks].
    match goal with
    | |- context [placeNote uid ?a] =>
        destruct (placeNote_trace a w) as (w1 & n & Hrun & R1 & Htext & Hai & Hpos)
    end.
    cbn [a_boardId a_detail a_title a_aiGenerated a_b2w a_x a_y a_z default from_option]
      in R1, Htext, Hai, Hpos.
    assert (note_id n = uid (uidCalls w)) as Hid.
    { destruct R1 as (_ & _ & _ & _ & _ & I). cbn in I. now injection I. }
    destruct (IH (S r)
                (<[default [] (orStr (task_id t) (Some (task_title t))) := uid (uidCalls w)]> ids)
                w1 (known ++ [note_id n]))
      as (ids' & w' & ns & Hrest & R2 & Htexts & Hk' & Hais & Hposs).
    { apply idsWithin_insert; [exact Hk | left; now symmetry]. }
    exists ids', w', ([n] ++ ns). split; [|split; [|split; [|split; [|split]]]].
    + erewrite bind_run by exact Hrun. exact Hrest.
    + eapply notesRun_trans; eauto.
    + cbn. now rewrite Htexts, Htext.
    + cbn. now rewrite <- app_assoc in Hk'.
    + constructor; assumption.
    + unfold rowPoints in *. cbn [List.length seq List.map app].
      rewrite Hposs, Hpos. reflexivity.
Qed.

Lemma placeLanes_trace (L : Layout) (lx : nat) (lanes : list jsstring)
    (ids : gmap jsstring jsstring) (w : World) (known : list jsstring) :
  idsWithin known ids ->
  exists ids' w' ns,
    placeLanes uid L lx lanes ids w = (inr ids', w')
    /\ notesRun uid (l_boardId L) w w' ns
    /\ List.map (fun n => n_text (note_doc n)) ns = planTexts (l_byLane L) lanes
    /\ idsWithin (known ++ List.map note_id ns) ids'
    /\ Forall (fun n => n_aiGenerated (note_doc n) = Some true) ns
    /\ List.map (fun n => position (n_pose (note_doc n))) ns
       = List.map (fun p => storedPoint (l_b2w L p)) (planPoints L lx lanes).
Proof.
  revert lx ids w known. induction lanes as [|lane rest IH]; intros lx ids w known Hk.
  - exists ids, w, []. split; [|split; [|split; [|split; [|split]]]]; try reflexivity.
    + apply notesRun_refl.
    + cbn. now rewrite app_nil_r.
    + constructor.
  - cbn [placeLanes].
    match goal with
    | |- context [placeNote uid ?a] =>
        destruct (placeNote_trace a w) as (w1 & n & Hrun & R1 & Htext & Hai & Hpos)
    end.
    cbn [a_boardId a_detail a_title a_aiGenerated a_b2w a_x a_y a_z truthyStr default
         from_option] in R1, Htext, Hai, Hpos.
    destruct (placeTasks_trace L lane lx 0 (default [] (l_byLane L !! lane)) ids w1
                (known ++ [note_id n]) (idsWithin_weaken _ _ _ Hk))
      as (ids1 & w2 & ns1 & Htasks & R2 & Htexts1 & Hk1 & Hais1 & Hposs1).
    destruct (IH (S lx) ids1 w2 _ Hk1)
      as (ids' & w' & ns2 & Hrest & R3 & Htexts2 & Hk2 & Hais2 & Hposs2).
    exists ids', w', ([n] ++ ns1 ++ ns2). split; [|split; [|split; [|split; [|split]]]].
    + erewrite bind_run by exact Hrun.
      erewrite bind_run by exact Htasks. exact Hrest.
    + eauto using notesRun_trans.
    + cbn. rewrite List.map_app, Htexts1, Htexts2, Htext. reflexivity.
    + cbn. rewrite List.map_app. now rewrite <- !app_assoc in Hk2.
    + constructor; [exact Hai|]. apply Forall_app. now split.
    + cbn [planPoints List.map app]. rewrite !List.map_app, Hposs1, Hposs2, Hpos.
      reflexivity.
Qed.

Lemma resolve_within (known : list jsstring) (ids : gmap jsstring jsstring) (k : jsstring) :
  idsWithin known ids -> truthyStr (resolve ids k) = true ->
  In (default [] (resolve ids k)) known.
Proof.
  intros Hk. unfold resolve, orStr.
  destruct (truthyStr (ids !! k)) eqn:E.
  - intros _. destruct (ids !! k) as [v|] eqn:El; [|discriminate]. eapply Hk, El.
  - intros T. destruct (ids !! normalizeKey k) as [v|] eqn:El; [|discriminate].
    eapply Hk, El.
Qed.

Lemma wireEdges_trace (b : jsstring) (ids : gmap jsstring jsstring)
    (edges : list WorkflowEdge) (w : World) (known : list jsstring) :
  idsWithin known ids ->
  exists w' es,
    wireEdges uid b ids edges w = (inr tt, w')
    /\ edgesRun uid b w w' es
    /\ List.map (fun e => (edge_from e, edge_to e)) es = wiring ids edges
    /\ Forall (fun e => In (edge_from e) known /\ In (edge_to e) known) es
    /\ Forall (fun e => edge_aiGenerated e = None /\ edge_fromAI e = None) es.
Proof.
  intros Hk. revert w. induction edges as [|e rest IH]; intros w.
  - exists w, []. split; [|split; [|split; [|split]]]; try reflexivity.
    + apply edgesRun_refl.
    + constructor.
    + constructor.
  - cbn [wireEdges wiring flat_map].
    destruct (wirable (resolve ids (we_from e)) (resolve ids (we_to e))) eqn:W; [|apply IH].
    set (fromId := default [] (resolve ids (we_from e))).
    set (toId := default [] (resolve ids (we_to e))).
    set (edge := mkStoredEdge (uid (uidCalls w)) fromId toId
                   (KindFlags (mkEdgeExtra (Some true) None)) None None).
    set (w1 := mkWorld (notesStore w) (<[b := readEdges b w ++ [edge]]> (edgesStore w))
                 (dispatched w ++ [(edges_updated, b)]) (S (uidCalls w))).
    assert (edgesRun uid b w w1 [edge]) as R1.
    { repeat split; cbn; try reflexivity; try lia.
      - unfold readEdges at 1. cbn. now rewrite lookup_insert_eq.
      - intros b' Hb. now rewrite lookup_insert_ne. }
    destruct (IH w1) as (w' & es & Hrest & R2 & Hends & Hin & Hun).
    exists w', ([edge] ++ es). split; [|split; [|split; [|split]]].
    + erewrite bind_run by reflexivity. exact Hrest.
    + eapply edgesRun_trans; eauto.
    + cbn. now rewrite Hends.
    + constructor; [|exact Hin]. unfold wirable in W.
      apply andb_prop in W as [[Tf Tt]%andb_prop _].
      split; now apply resolve_within.
    + constructor; [now split | exact Hun].
Qed.

(** Past the guards: the notes of the plan, then the edges of the plan. *)
Lemma applyPlanToWall_trace (b : jsstring) (xr : XR) (aiOut : option AIOutput)
    (opts : option Options) (w : World) (wp : WorkPlan) (t : Task) (ts : list Task)
    (board : Object3D) :
  aiOut ≫= workplan = Some wp -> tasksToApply aiOut = t :: ts -> boardOf xr = Some board ->
  let L := layoutOf applyQuaternion b board wp (t :: ts) opts in
  exists ids w1 w' ns es,
    placeLanes uid L 0 (lanesOf wp) ∅ w = (inr ids, w1)
    /\ applyPlanToWall uid applyQuaternion b xr aiOut opts w = (inr tt, w')
    /\ notesRun uid b w w1 ns
    /\ edgesRun uid b w1 w' es
    /\ List.map (fun n => n_text (note_doc n)) ns = planTexts (l_byLane L) (lanesOf wp)
    /\ List.map (fun e => (edge_from e, edge_to e)) es
       = wiring ids (default [] (aiOut ≫= workflow_edges))
    /\ Forall (fun e => In (edge_from e) (List.map note_id ns)
                        /\ In (edge_to e) (List.map note_id ns)) es
    /\ Forall (fun n => n_aiGenerated (note_doc n) = Some true) ns
    /\ Forall (fun e => edge_aiGenerated e = None /\ edge_fromAI e = None) es
    /\ List.map (fun n => position (n_pose (note_doc n))) ns
       = List.map
           (fun p =>
              storedPoint
                (Three.add (applyQuaternion p (worldQuaternion board)) (worldPosition board)))
           (planPoints L 0 (lanesOf wp)).
Proof.
  intros Hwp Ht Hb L.
  destruct (placeLanes_trace L 0 (lanesOf wp) ∅ w [])
    as (ids & w1 & ns & Hnotes & R1 & Htexts & Hk & Hais & Hposs).
  { intros k v Hl. now rewrite lookup_empty in Hl. }
  destruct (wireEdges_trace b ids (default [] (aiOut ≫= workflow_edges)) w1 _ Hk)
    as (w' & es & Hedges & R2 & Hends & Hin & Hun).
  cbn [app] in Hk, Hin.
  exists ids, w1, w', ns, es.
  split; [exact Hnotes|]. split; [|split; [exact R1|]; split; [exact R2|]; auto 10].
  unfold applyPlanToWall. rewrite Hwp, Ht, Hb.
  fold L. erewrite bind_run by exact Hnotes. exact Hedges.
Qed.

(** A run of notes followed by a run of edges adds exactly those records. *)
Lemma runs_new (b : jsstring) (w w1 w' : World) (ns : list StoredNote)
    (es : list StoredEdge) :
  notesRun uid b w w1 ns -> edgesRun uid b w1 w' es ->
  newNotes b w w' = ns /\ newEdges b w w' = es.
Proof.
  intros (R1 & _ & E1 & _) (R2 & _ & N2 & _). unfold newNotes, newEdges. split.
  - replace (readNotes b w') with (readNotes b w1) by (unfold readNotes; now rewrite N2).
    rewrite R1. apply drop_app_length.
  - rewrite R2. replace (readEdges b w1) with (readEdges b w)
      by (unfold readEdges; now rewrite E1).
    apply drop_app_length.
Qed.

(** Whatever the arguments: a run of notes, then a run of edges between
    notes of that run; both empty when a guard fails. *)
Lemma applyPlanToWall_added (b : jsstring) (xr : XR) (aiOut : option AIOutput)
    (opts : option Options) (w : World) :
  exists w1 ns es,
    notesRun uid b w w1 ns
    /\ edgesRun uid b w1 (snd (applyPlanToWall uid applyQuaternion b xr aiOut opts w)) es
    /\ Forall (fun e => In (edge_from e) (List.map note_id ns)
                        /\ In (edge_to e) (List.map note_id ns)) es
    /\ Forall (fun n => n_aiGenerated (note_doc n) = Some true) ns
    /\ Forall (fun e => edge_aiGenerated e = None /\ edge_fromAI e = None) es.
Proof.
  destruct (tasksToApply aiOut) as [|t ts] eqn:Ht.
  { rewrite applyPlanToWall_no_tasks by exact Ht.
    exists w, [], []. split; [apply notesRun_refl|]. split; [apply edgesRun_refl|].
    repeat split; constructor. }
  destruct (boardOf xr) as [board|] eqn:Hb.
  2:{ rewrite applyPlanToWall_no_board; [| now rewrite Ht | exact Hb].
      exists w, [], []. split; [apply notesRun_refl|].
      split; [apply edgesRun_refl|]. repeat split; constructor. }
  destruct (aiOut ≫= workplan) as [wp|] eqn:Ewp.
  2:{ unfold tasksToApply in Ht. rewrite Ewp in Ht. discriminate. }
  destruct (applyPlanToWall_trace b xr aiOut opts w wp t ts board Ewp Ht Hb)
    as (ids & w1 & w' & ns & es & _ & -> & R1 & R2 & _ & _ & Hin & Hai & Hun & _).
  exists w1, ns, es. auto 10.
Qed.

(** A call ends without error, or fails and leaves the world alone. *)
Lemma applyPlanToWall_ends (b : jsstring) (xr : XR) (aiOut : option AIOutput)
    (opts : option Options) (w : World) :
  fst (applyPlanToWall uid applyQuaternion b xr aiOut opts w) = inr tt
  \/ exists e, applyPlanToWall uid applyQuaternion b xr aiOut opts w = (inl e, w).
Proof.
  destruct (tasksToApply aiOut) as [|t ts] eqn:Ht.
  { right. eexists. now apply applyPlanToWall_no_tasks. }
  destruct (boardOf xr) as [board|] eqn:Hb.
  - left. now destruct (applyPlanToWall_run uid applyQuaternion b xr aiOut opts w t ts board
                          Ht Hb) as (w' & -> & _).
  - right. eexists. apply applyPlanToWall_no_board; [now rewrite Ht | exact Hb].
Qed.

(** The notes of a call, in the order of their creation: for every lane
    of the plan, in the order of the lanes, the header of the lane and then
    the tasks grouped under it, each with its summary title and, when it has
    one, its description on a second line. *)
Theorem applyPlanToWall_note_texts (b : jsstring) (xr : XR) (aiOut : option AIOutput)
    (opts : option Options) (w : World) (wp : WorkPlan) (t : Task) (ts : list Task)
    (board : Object3D) :
  aiOut ≫= workplan = Some wp -> tasksToApply aiOut = t :: ts -> boardOf xr = Some board ->
  List.map (fun n => n_text (note_doc n))
    (newNotes b w (snd (applyPlanToWall uid applyQuaternion b xr aiOut opts w)))
  = planTexts
      (groupByLane (default 8%float (opts ≫= o_maxPerLane)) (lanesOf wp) (t :: ts))
      (lanesOf wp).
Proof.
  intros Hwp Ht Hb.
  destruct (applyPlanToWall_trace b xr aiOut opts w wp t ts board Hwp Ht Hb)
    as (ids & w1 & w' & ns & es & _ & -> & R1 & R2 & Htexts & _).
  cbn [snd]. destruct (runs_new b w w1 w' ns es R1 R2) as [-> _]. exact Htexts.
Qed.

(** The identifiers, the events and the count of a call: the notes take
    the next identifiers of the generator in the order of their creation and
    the edges the ones after them; one [notes-updated] event is dispatched
    per note, then one [edges-updated] event per edge; and the generator has
    been called once per record.  A call either ends without error or
    fails and leaves the world as it found it: nothing added, nothing
    dispatched, no identifier drawn. *)
Theorem applyPlanToWall_ids_and_events (b : jsstring) (xr : XR) (aiOut : option AIOutput)
    (opts : option Options) (w : World) :
  let r := applyPlanToWall uid applyQuaternion b xr aiOut opts w in
  let w' := snd r in
  let ns := newNotes b w w' in
  let es := newEdges b w w' in
  let n := List.length ns in
  let m := List.length es in
  readNotes b w' = readNotes b w ++ ns
  /\ readEdges b w' = readEdges b w ++ es
  /\ List.map note_id ns = List.map uid (seq (uidCalls w) n)
  /\ List.map edge_id es = List.map uid (seq (uidCalls w + n) m)
  /\ dispatched w'
     = dispatched w ++ replicate n (notes_updated, b) ++ replicate m (edges_updated, b)
  /\ uidCalls w' = (uidCalls w + n + m)%nat
  /\ (fst r = inr tt \/ exists e, r = (inl e, w)).
Proof.
  destruct (applyPlanToWall_added b xr aiOut opts w) as (w1 & ns & es & R1 & R2 & _).
  cbv zeta.
  destruct (runs_new b w w1 _ ns es R1 R2) as [-> ->].
  destruct R1 as (N1 & _ & E1 & D1 & U1 & I1), R2 as (E2 & _ & N2 & D2 & U2 & I2).
  repeat split.
  - unfold readNotes in *. now rewrite N2.
  - rewrite E2. unfold readEdges. now rewrite E1.
  - exact I1.
  - now rewrite I2, U1.
  - now rewrite D2, D1, <- app_assoc.
  - now rewrite U2, U1.
  - apply applyPlanToWall_ends.
Qed.

(** A call for one board leaves the notes and the edges of every other
    board as they are. *)
Theorem applyPlanToWall_other_boards (b b' : jsstring) (xr : XR) (aiOut : option AIOutput)
    (opts : option Options) (w : World) :
  b' <> b ->
  let w' := snd (applyPlanToWall uid applyQuaternion b xr aiOut opts w) in
  notesStore w' !! b' = notesStore w !! b' /\ edgesStore w' !! b' = edgesStore w !! b'.
Proof.
  intros Hb.
  destruct (applyPlanToWall_added b xr aiOut opts w) as (w1 & ns & es & R1 & R2 & _).
  destruct R1 as (_ & F1 & E1 & _), R2 as (_ & F2 & N2 & _).
  cbv zeta. split.
  - rewrite N2. now apply F1.
  - rewrite F2 by exact Hb. now rewrite E1.
Qed.

(** Both ends of every edge a call adds are identifiers of notes the
    same call has added; and when the generator, from this call on, returns
    no identifier of a note that is on the board already, no end of a new
    edge is the identifier of a note that was on the board before. *)
Theorem applyPlanToWall_edges_join_new_notes (b : jsstring) (xr : XR)
    (aiOut : option AIOutput) (opts : option Options) (w : World) :
  let w' := snd (applyPlanToWall uid applyQuaternion b xr aiOut opts w) in
  Forall (fun e => In (edge_from e) (List.map note_id (newNotes b w w'))
                   /\ In (edge_to e) (List.map note_id (newNotes b w w')))
    (newEdges b w w')
  /\ ((forall n i, In n (readNotes b w) -> (uidCalls w <= i)%nat -> note_id n <> uid i) ->
      Forall (fun e => ~ In (edge_from e) (List.map note_id (readNotes b w))
                       /\ ~ In (edge_to e) (List.map note_id (readNotes b w)))
        (newEdges b w w')).
Proof.
  destruct (applyPlanToWall_added b xr aiOut opts w) as (w1 & ns & es & R1 & R2 & Hin & _).
  cbv zeta. destruct (runs_new b w w1 _ ns es R1 R2) as [-> ->].
  split; [exact Hin|]. intros Hfresh.
  destruct R1 as (_ & _ & _ & _ & _ & Hids).
  assert (forall x, In x (List.map note_id ns) ->
                    ~ In x (List.map note_id (readNotes b w))) as Hnew.
  { intros x Hx Hold. rewrite Hids in Hx.
    apply in_map_iff in Hx as (i & <- & Hi). apply in_seq in Hi.
    apply in_map_iff in Hold as (n & Hn & Hin'). apply (Hfresh n i Hin'); [lia | exact Hn]. }
  eapply List.Forall_impl; [|exact Hin]. intros e [Hf Ht]. split; now apply Hnew.
Qed.

(** C6. The edges [applyPlanToWall] adds to the board never join a note
    to itself; and when the call is past its guards, a workflow edge one of
    whose ends does not resolve through the task-key mapping is skipped
    while the rest is created: the call ends without error, in the same
    result and the same board as for the plan without that edge; the notes
    it adds are all the notes of the plan, every lane header and every task
    under it; and the edges it adds are those of the workflow edges before
    and after the skipped one. *)
Theorem applyPlanToWall_edges_best_effort :
  (forall b xr aiOut opts w,
     appended (fun e => edge_from e <> edge_to e) (readEdges b w)
       (readEdges b (snd (applyPlanToWall uid applyQuaternion b xr aiOut opts w))))
  /\ (forall b xr summary wp t ts board opts w es1 e es2,
        tasks wp = Some (t :: ts) ->
        boardOf xr = Some board ->
        (let ids := idByTaskKeyAfterNotes uid applyQuaternion b board wp (t :: ts) opts w in
         truthyStr (resolve ids (we_from e)) = false
         \/ truthyStr (resolve ids (we_to e)) = false) ->
        let ids := idByTaskKeyAfterNotes uid applyQuaternion b board wp (t :: ts) opts w in
        let r :=
          applyPlanToWall uid applyQuaternion b xr
            (Some (mkAIOutput summary (Some wp) (Some (es1 ++ e :: es2)))) opts w in
        fst r = inr tt
        /\ r = applyPlanToWall uid applyQuaternion b xr
                 (Some (mkAIOutput summary (Some wp) (Some (es1 ++ es2)))) opts w
        /\ readNotes b (snd r) = readNotes b w ++ newNotes b w (snd r)
        /\ List.map (fun n => n_text (note_doc n)) (newNotes b w (snd r))
           = planTexts
               (groupByLane (default 8%float (opts ≫= o_maxPerLane)) (lanesOf wp) (t :: ts))
               (lanesOf wp)
        /\ readEdges b (snd r) = readEdges b w ++ newEdges b w (snd r)
        /\ List.map (fun x => (edge_from x, edge_to x)) (newEdges b w (snd r))
           = wiring ids es1 ++ wiring ids es2).
Proof.
  split.
  - intros b xr aiOut opts w.
    destruct (applyPlanToWall_grows uid applyQuaternion b xr aiOut opts w) as [_ E].
    eapply appended_weaken; [|exact E]. now intros e [D _].
  - intros b xr summary wp t ts board opts w es1 e es2 Ht Hb Hun. cbv zeta.
    assert (tasksToApply (Some (mkAIOutput summary (Some wp) (Some (es1 ++ e :: es2))))
            = t :: ts) as Ht'.
    { unfold tasksToApply. cbn. now rewrite Ht. }
    destruct (applyPlanToWall_trace b xr
                (Some (mkAIOutput summary (Some wp) (Some (es1 ++ e :: es2)))) opts w wp t ts
                board eq_refl Ht' Hb)
      as (ids & w1 & w' & ns & es & Hids & Hrun & R1 & R2 & Htexts & Hends & _).
    unfold idByTaskKeyAfterNotes in *. rewrite Hids in *. cbn [fst] in *.
    assert (wirable (resolve ids (we_from e)) (resolve ids (we_to e)) = false) as Hw
      by now apply unresolved_not_wirable.
    assert (applyPlanToWall uid applyQuaternion b xr
              (Some (mkAIOutput summary (Some wp) (Some (es1 ++ es2)))) opts w
            = (inr tt, w')) as Hsame.
    { assert (forall l,
                applyPlanToWall uid applyQuaternion b xr
                  (Some (mkAIOutput summary (Some wp) (Some l))) opts w
                = (placeLanes uid (layoutOf applyQuaternion b board wp (t :: ts) opts) 0
                     (lanesOf wp) ∅
                   ≫= fun ids => wireEdges uid b ids l) w) as Happly.
      { intros l. unfold applyPlanToWall, tasksToApply. cbn. now rewrite Ht, Hb. }
      rewrite Happly in Hrun. rewrite Happly.
      rewrite (bind_run _ _ _ _ _ Hids) in Hrun. rewrite (bind_run _ _ _ _ _ Hids).
      rewrite <- Hrun. symmetry. now apply wireEdges_skip. }
    rewrite Hsame, Hrun. cbn [fst snd].
    destruct (runs_new b w w1 w' ns es R1 R2) as [-> ->].
    destruct R1 as (N1 & _ & E1 & _), R2 as (E2 & _ & N2 & _).
    repeat split.
    + unfold readNotes in *. now rewrite N2.
    + exact Htexts.
    + rewrite E2. unfold readEdges. now rewrite E1.
    + rewrite Hends. cbn [default from_option mbind option_bind workflow_edges id].
      unfold wiring. rewrite flat_map_app. cbn [flat_map]. now rewrite Hw.
Qed.

(** C10. Every note [applyPlanToWall] adds to the board, header or task,
    is stored with zero votes and the identity quaternion [0,0,0,1], for
    every board pose and every rotation routine: the notes of the board
    after the call are those before it followed by such notes.  The pose of
    the board reaches the position, and the position alone: past the
    guards, the positions stored are, in the order of creation, the
    board-local points of the plan, each rotated by the world quaternion of
    the board and moved by its world position, as JSON stores the three
    numbers. *)
Theorem applyPlanToWall_notes_unrotated :
  (forall b xr aiOut opts w,
     appended unrotated (readNotes b w)
       (readNotes b (snd (applyPlanToWall uid applyQuaternion b xr aiOut opts w))))
  /\ (forall b xr aiOut opts w wp t ts board,
        aiOut ≫= workplan = Some wp ->
        tasksToApply aiOut = t :: ts ->
        boardOf xr = Some board ->
        List.map (fun n => position (n_pose (note_doc n)))
          (newNotes b w (snd (applyPlanToWall uid applyQuaternion b xr aiOut opts w)))
        = List.map
            (fun p =>
               storedPoint
                 (Three.add (applyQuaternion p (worldQuaternion board))
                    (worldPosition board)))
            (planPoints (layoutOf applyQuaternion b board wp (t :: ts) opts) 0
               (lanesOf wp))).
Proof.
  split.
  - intros b xr aiOut opts w.
    destruct (applyPlanToWall_grows uid applyQuaternion b xr aiOut opts w) as [N _].
    eapply appended_weaken; [|exact N]. now intros n [U _].
  - intros b xr aiOut opts w wp t ts board Hwp Ht Hb.
    destruct (applyPlanToWall_trace b xr aiOut opts w wp t ts board Hwp Ht Hb)
      as (ids & w1 & w' & ns & es & _ & -> & R1 & R2 & _ & _ & _ & _ & _ & Hpos).
    cbn [snd]. destruct (runs_new b w w1 w' ns es R1 R2) as [-> _]. exact Hpos.
Qed.

(** The edges of a call, in the order of their creation: one for every
    workflow edge of the plan whose two ends resolve, through the task-key
    mapping of the note loops, to two distinct notes; in the order of the
    plan, duplicates included. *)
Theorem applyPlanToWall_wiring (b : jsstring) (xr : XR) (aiOut : option AIOutput)
    (opts : option Options) (w : World) (wp : WorkPlan) (t : Task) (ts : list Task)
    (board : Object3D) :
  aiOut ≫= workplan = Some wp -> tasksToApply aiOut = t :: ts -> boardOf xr = Some board ->
  List.map (fun e => (edge_from e, edge_to e))
    (newEdges b w (snd (applyPlanToWall uid applyQuaternion b xr aiOut opts w)))
  = wiring (idByTaskKeyAfterNotes uid applyQuaternion b board wp (t :: ts) opts w)
      (default [] (aiOut ≫= workflow_edges)).
Proof.
  intros Hwp Ht Hb.
  destruct (applyPlanToWall_trace b xr aiOut opts w wp t ts board Hwp Ht Hb)
    as (ids & w1 & w' & ns & es & Hids & -> & R1 & R2 & _ & Hends & _).
  cbn [snd]. destruct (runs_new b w w1 w' ns es R1 R2) as [_ ->].
  unfold idByTaskKeyAfterNotes. now rewrite Hids.
Qed.

(** The records of a call and their tags. *)
Lemma applyPlanToWall_new (b : jsstring) (xr : XR) (aiOut : option AIOutput)
    (opts : option Options) (w : World) :
  let w' := snd (applyPlanToWall uid applyQuaternion b xr aiOut opts w) in
  readNotes b w' = readNotes b w ++ newNotes b w w'
  /\ readEdges b w' = readEdges b w ++ newEdges b w w'
  /\ Forall (fun n => n_aiGenerated (note_doc n) = Some true) (newNotes b w w')
  /\ Forall (fun e => edge_aiGenerated e = None /\ edge_fromAI e = None) (newEdges b w w').
Proof.
  destruct (applyPlanToWall_added b xr aiOut opts w)
    as (w1 & ns & es & R1 & R2 & _ & Hai & Hun).
  cbv zeta. destruct (runs_new b w w1 _ ns es R1 R2) as [-> ->].
  destruct R1 as (N1 & _ & E1 & _), R2 as (E2 & _ & N2 & _).
  repeat split; auto.
  - unfold readNotes in *. now rewrite N2.
  - rewrite E2. unfold readEdges. now rewrite E1.
Qed.

End ApplierTrace.

(** ** The reconciler *)

Section ReconcilerFacts.
Import JsString Three Db PlanApply Spec ClearAiNotes ClearAppliedPlan ClearWall.

Variable uid : nat -> jsstring.
Variable applyQuaternion : Vector3 -> Quaternion -> Vector3.

Lemma filter_none {A} (f : A -> bool) (l : list A) :
  Forall (fun x => f x = false) l -> List.filter f l = [].
Proof.
  induction 1 as [|x l Hx _ IH]; [reflexivity|]. cbn. now rewrite Hx.
Qed.

Lemma clearAiNotes_read (b : jsstring) (w : World) :
  readNotes b (snd (clearAiNotes b w))
  = List.filter (fun n => negb (aiNote n)) (readNotes b w).
Proof.
  unfold clearAiNotes, readNotes. destruct (notesStore w !! b) as [notes|] eqn:E; cbn.
  - now rewrite lookup_insert_eq.
  - now rewrite E.
Qed.

Lemma clearAiEdges_read (b : jsstring) (w : World) :
  readEdges b (snd (clearAiEdges b w))
  = List.filter (fun e => negb (aiEdge e)) (readEdges b w).
Proof.
  unfold clearAiEdges, readEdges. destruct (edgesStore w !! b) as [edges|] eqn:E; cbn.
  - now rewrite lookup_insert_eq.
  - now rewrite E.
Qed.

(** [clearAiNotes] after [applyPlanToWall] takes every note of the plan
    off the board again, and with them the notes that were tagged before;
    [clearAiEdges] after [applyPlanToWall] leaves every edge of the plan on
    the board: the records carry no tag it tests. *)
Theorem clearAi_after_applyPlanToWall (b : jsstring) (xr : XR) (aiOut : option AIOutput)
    (opts : option Options) (w : World) :
  let w1 := snd (applyPlanToWall uid applyQuaternion b xr aiOut opts w) in
  readNotes b (snd (clearAiNotes b w1))
  = List.filter (fun n => negb (aiNote n)) (readNotes b w)
  /\ readEdges b (snd (clearAiEdges b w1))
     = List.filter (fun e => negb (aiEdge e)) (readEdges b w) ++ newEdges b w w1.
Proof.
  destruct (applyPlanToWall_new uid applyQuaternion b xr aiOut opts w)
    as (N & E & Hai & Hun).
  cbv zeta. split.
  - rewrite clearAiNotes_read, N, List.filter_app.
    rewrite (filter_none _ (newNotes _ _ _)); [apply app_nil_r|].
    eapply List.Forall_impl; [|exact Hai]. intros n H. unfold aiNote. rewrite H.
    cbn. now rewrite orb_true_r.
  - rewrite clearAiEdges_read, E, List.filter_app. f_equal.
    apply forallb_filter_id, forallb_forall. intros e He.
    rewrite List.Forall_forall in Hun. destruct (Hun e He) as [H1 H2].
    unfold aiEdge. now rewrite H1, H2.
Qed.

(** [clearAppliedPlan] after [applyPlanToWall]: the notes of the plan go
    and the edges of the plan stay, now between notes that are no longer on
    the board. *)
Theorem clearAppliedPlan_after_applyPlanToWall (b : jsstring) (xr : XR)
    (aiOut : option AIOutput) (opts : option Options) (w : World) :
  let w1 := snd (applyPlanToWall uid applyQuaternion b xr aiOut opts w) in
  let w2 := snd (clearAppliedPlan b w1) in
  readNotes b w2
  = List.filter (fun n => negb (isTrue (n_aiGenerated (note_doc n)))) (readNotes b w)
  /\ readEdges b w2
     = List.filter (fun e => negb (isTrue (edge_aiGenerated e))) (readEdges b w)
       ++ newEdges b w w1
  /\ Forall (fun e => In (edge_from e) (List.map note_id (newNotes b w w1))
                      /\ In (edge_to e) (List.map note_id (newNotes b w w1)))
       (newEdges b w w1).
Proof.
  destruct (applyPlanToWall_new uid applyQuaternion b xr aiOut opts w)
    as (N & E & Hai & Hun).
  destruct (applyPlanToWall_added uid applyQuaternion b xr aiOut opts w)
    as (w1 & ns & es & R1 & R2 & Hin & _).
  destruct (runs_new uid b w w1 _ ns es R1 R2) as [Hns Hes].
  cbv zeta. split; [|split].
  - unfold clearAppliedPlan, readNotes at 1. cbn. rewrite lookup_insert_eq. cbn.
    rewrite N, List.filter_app.
    rewrite (filter_none _ (newNotes _ _ _)); [apply app_nil_r|].
    eapply List.Forall_impl; [|exact Hai]. intros n H. now rewrite H.
  - unfold clearAppliedPlan, readEdges at 1. cbn. rewrite lookup_insert_eq. cbn.
    rewrite E, List.filter_app. f_equal.
    apply forallb_filter_id, forallb_forall. intros e He.
    rewrite List.Forall_forall in Hun. destruct (Hun e He) as [H1 _]. now rewrite H1.
  - rewrite Hns, Hes. exact Hin.
Qed.

Lemma filter_filter_same {A} (f : A -> bool) (l : list A) :
  List.filter f (List.filter f l) = List.filter f l.
Proof.
  induction l as [|x l IH]; [reflexivity|]. cbn.
  destruct (f x) eqn:E; [|exact IH]. cbn. now rewrite E, IH.
Qed.

(** A second run of [clearAiNotes] or of [clearAiEdges] finds nothing
    more to remove: the stores are those of the first run. *)
Theorem clearAi_twice (b : jsstring) (w : World) :
  notesStore (snd (clearAiNotes b (snd (clearAiNotes b w))))
  = notesStore (snd (clearAiNotes b w))
  /\ edgesStore (snd (clearAiEdges b (snd (clearAiEdges b w))))
     = edgesStore (snd (clearAiEdges b w)).
Proof.
  split.
  - unfold clearAiNotes. destruct (notesStore w !! b) as [notes|] eqn:E; cbn.
    + rewrite lookup_insert_eq. cbn. now rewrite filter_filter_same, insert_insert_eq.
    + now rewrite E.
  - unfold clearAiEdges. destruct (edgesStore w !! b) as [edges|] eqn:E; cbn.
    + rewrite lookup_insert_eq. cbn. now rewrite filter_filter_same, insert_insert_eq.
    + now rewrite E.
Qed.

(** After [clearWall] the board reads as empty, the other boards are
    as before, and the two filters of clearAiNotes.ts find no key to work
    on: they write nothing and send no event, where [clearAppliedPlan]
    writes the two keys again. *)
Theorem clearWall_then_clear (b : jsstring) (w : World) :
  let w' := snd (clearWall b w) in
  readNotes b w' = [] /\ readEdges b w' = []
  /\ (forall b', b' <> b ->
       notesStore w' !! b' = notesStore w !! b' /\ edgesStore w' !! b' = edgesStore w !! b')
  /\ clearAiNotes b w' = (inr tt, w')
  /\ clearAiEdges b w' = (inr tt, w')
  /\ notesStore (snd (clearAppliedPlan b w')) !! b = Some []
  /\ edgesStore (snd (clearAppliedPlan b w')) !! b = Some [].
Proof.
  cbv zeta. unfold clearWall, readNotes, readEdges, clearAiNotes, clearAiEdges,
    clearAppliedPlan, readNotes, readEdges. cbn.
  rewrite !lookup_delete_eq, !lookup_insert_eq. cbn.
  repeat split; try reflexivity.
  - now rewrite lookup_delete_ne.
  - now rewrite lookup_delete_ne.
Qed.

End ReconcilerFacts.

(** ** The data layer *)

Section DbFacts.
Import JsString Db.

Variable uid : nat -> jsstring.

Lemma eqb_refl (a : jsstring) : eqb a a = true.
Proof. now apply eqb_eq. Qed.

Lemma eqb_neq (a b : jsstring) : a <> b -> eqb a b = false.
Proof.
  intros H. destruct (eqb a b) eqn:E; [|reflexivity]. now apply eqb_eq in E.
Qed.

(** Taking a note off under the identifier [addNote] has just returned
    gives back the notes there were, when no note had that identifier
    before. *)
Theorem removeNote_after_addNote (b : jsstring) (note : NoteDoc) (w : World) :
  Forall (fun n => note_id n <> uid (uidCalls w)) (readNotes b w) ->
  match addNote uid b note w with
  | (inr id, w1) => readNotes b (snd (removeNote b id w1)) = readNotes b w
  | (inl _, _) => False
  end.
Proof.
  intros Hfresh. unfold addNote, removeNote. cbn.
  unfold readNotes at 1. cbn. rewrite lookup_insert_eq. cbn.
  unfold readNotes at 1. cbn. rewrite lookup_insert_eq. cbn.
  rewrite List.filter_app. cbn. rewrite eqb_refl. cbn. rewrite app_nil_r.
  apply forallb_filter_id, forallb_forall. intros n Hn.
  rewrite List.Forall_forall in Hfresh. now rewrite eqb_neq by now apply Hfresh.
Qed.




End DbFacts.

(** ** The listeners *)

Section ListenFacts.
Import JsString Db.

Context {T D : Type}.
Variable idOf : T -> jsstring.
Variable stripId : T -> D.

#[local] Abbreviation keys := (List.map (fst (A := jsstring) (B := T))).

Lemma mapSet_fresh (k : jsstring) (v : T) (m : list (jsstring * T)) :
  ~ In k (keys m) -> mapSet k v m = m ++ [(k, v)].
Proof.
  induction m as [|[k' v'] m IH]; intros H; [reflexivity|].
  cbn in *. rewrite eqb_neq by intuition congruence. f_equal. apply IH. tauto.
Qed.

Lemma mapSet_keys_in (k : jsstring) (v : T) (m : list (jsstring * T)) :
  In k (keys m) -> keys (mapSet k v m) = keys m.
Proof.
  induction m as [|[k' v'] m IH]; intros H; [contradiction|].
  cbn in *. destruct (eqb k k') eqn:E.
  - apply eqb_eq in E. now subst.
  - cbn. f_equal. apply IH. destruct H as [->|H]; [|exact H].
    now rewrite eqb_refl in E.
Qed.

Lemma mapSet_NoDup (k : jsstring) (v : T) (m : list (jsstring * T)) :
  List.NoDup (keys m) -> List.NoDup (keys (mapSet k v m)).
Proof.
  intros H. destruct (List.in_dec (List.list_eq_dec N.eq_dec) k (keys m)) as [Hin|Hout].
  - now rewrite mapSet_keys_in.
  - rewrite mapSet_fresh, List.map_app by exact Hout. cbn.
    apply List.NoDup_app; [exact H | constructor; [intros [] | constructor] |].
    intros x Hx [<-|[]]. contradiction.
Qed.

Lemma arrToMap_snoc (arr : list T) (x : T) :
  arrToMap idOf (arr ++ [x]) = mapSet (idOf x) x (arrToMap idOf arr).
Proof. unfold arrToMap. now rewrite foldl_app. Qed.

Lemma arrToMap_NoDup (arr : list T) : List.NoDup (keys (arrToMap idOf arr)).
Proof.
  induction arr as [|x arr IH] using rev_ind; [constructor|].
  rewrite arrToMap_snoc. now apply mapSet_NoDup.
Qed.

Lemma mapSet_keys_sub (k : jsstring) (v : T) (m : list (jsstring * T)) (k' : jsstring) :
  In k' (keys (mapSet k v m)) -> k' = k \/ In k' (keys m).
Proof.
  induction m as [|[k0 v0] m IH]; cbn.
  - intuition.
  - destruct (eqb k k0) eqn:E; cbn; intuition.
Qed.

Lemma arrToMap_keys (arr : list T) (k : jsstring) :
  In k (keys (arrToMap idOf arr)) -> In k (List.map idOf arr).
Proof.
  induction arr as [|x arr IH] using rev_ind; [now cbn|].
  rewrite arrToMap_snoc, List.map_app. intros [->|H]%mapSet_keys_sub; apply in_or_app.
  - right. now left.
  - left. now apply IH.
Qed.

Lemma mapGet_none (k : jsstring) (m : list (jsstring * T)) :
  ~ In k (keys m) -> mapGet k m = None.
Proof.
  induction m as [|[k' v'] m IH]; intros H; [reflexivity|].
  cbn in *. rewrite eqb_neq by intuition congruence. apply IH. tauto.
Qed.

Lemma mapGet_in (k : jsstring) (v : T) (m : list (jsstring * T)) :
  List.NoDup (keys m) -> In (k, v) m -> mapGet k m = Some v.
Proof.
  induction m as [|[k' v'] m IH]; intros Hnd Hin; [contradiction|].
  cbn in *. apply List.NoDup_cons_iff in Hnd as [Hk Hnd].
  destruct Hin as [[= -> ->]|Hin].
  - now rewrite eqb_refl.
  - rewrite eqb_neq; [now apply IH|].
    intros ->. apply Hk. now apply (in_map fst) in Hin.
Qed.

Lemma mapGet_app_l (k : jsstring) (v : T) (m m' : list (jsstring * T)) :
  mapGet k m = Some v -> mapGet k (m ++ m') = Some v.
Proof.
  induction m as [|[k' v'] m IH]; cbn; [discriminate|].
  now destruct (eqb k k').
Qed.

Lemma mapGet_app_r (k : jsstring) (m m' : list (jsstring * T)) :
  mapGet k m = None -> mapGet k (m ++ m') = mapGet k m'.
Proof.
  induction m as [|[k' v'] m IH]; cbn; [reflexivity|].
  now destruct (eqb k k').
Qed.

Lemma flat_map_pointwise {A B} (f g : A -> list B) (l : list A) :
  (forall x, In x l -> f x = g x) -> flat_map f l = flat_map g l.
Proof.
  induction l as [|x l IH]; intros H; [reflexivity|].
  cbn. rewrite H by now left. f_equal. apply IH. intros y Hy. apply H. now right.
Qed.

Lemma flat_map_nil {A B} (f : A -> list B) (l : list A) :
  (forall x, In x l -> f x = []) -> flat_map f l = [].
Proof.
  induction l as [|x l IH]; intros H; [reflexivity|].
  cbn. rewrite H by now left. apply IH. intros y Hy. apply H. now right.
Qed.

(** The records appended under new identifiers come last in the map, in
    their order. *)
Lemma arrToMap_app_fresh (arr xs : list T) :
  List.NoDup (List.map idOf xs) ->
  (forall x, In x xs -> ~ In (idOf x) (List.map idOf arr)) ->
  arrToMap idOf (arr ++ xs) = arrToMap idOf arr ++ List.map (fun x => (idOf x, x)) xs.
Proof.
  induction xs as [|x xs IH] using rev_ind; intros Hnd Hfresh.
  - cbn. now rewrite !app_nil_r.
  - rewrite List.map_app in Hnd. cbn in Hnd.
    apply NoDup_remove in Hnd as [Hnd Hdis]. rewrite app_nil_r in Hnd, Hdis.
    rewrite app_assoc, arrToMap_snoc, IH;
      [|exact Hnd|intros y Hy; apply Hfresh, in_or_app; now left].
    rewrite mapSet_fresh; [now rewrite List.map_app, app_assoc|].
    rewrite List.map_app. intros [H|H]%in_app_or.
    + apply arrToMap_keys in H. eapply Hfresh; [|exact H]. apply in_or_app. right. now left.
    + rewrite List.map_map in H. cbn in H. contradiction.
Qed.

(** When the listener is set up on an array of distinct identifiers, it
    reports every record as [added], once and in the order of the array. *)
Theorem initialCalls_distinct (arr : list T) :
  List.NoDup (List.map idOf arr) ->
  initialCalls stripId (arrToMap idOf arr)
  = List.map (fun x => (idOf x, stripId x, added)) arr.
Proof.
  intros Hnd. unfold initialCalls.
  change arr with ([] ++ arr) at 1.
  rewrite (arrToMap_app_fresh [] arr Hnd) by (intros x _ []).
  cbn. now rewrite List.map_map.
Qed.
Section Handler.
(** [JSON.stringify], by which the handler compares two records. *)
Variable stringify : T -> jsstring.

Lemma changes_same (m : list (jsstring * T)) :
  List.NoDup (keys m) -> changes stripId stringify m m = [].
Proof.
  intros Hnd. unfold changes.
  rewrite !flat_map_nil; [reflexivity| |]; intros [k v] Hin; cbn;
    rewrite (mapGet_in k v m Hnd Hin); [now rewrite eqb_refl | reflexivity].
Qed.

(** An event that finds the array as the listener last saw it makes no
    call of the callback. *)
Theorem handler_quiet (arr : list T) :
  handler idOf stripId stringify (arrToMap idOf arr) arr = ([], arrToMap idOf arr).
Proof.
  unfold handler. now rewrite changes_same by apply arrToMap_NoDup.
Qed.

(** Records appended under identifiers that are new and distinct are
    reported as [added], once each and in their order, and nothing else is
    reported. *)
Theorem handler_appended (arr xs : list T) :
  List.NoDup (List.map idOf xs) ->
  (forall x, In x xs -> ~ In (idOf x) (List.map idOf arr)) ->
  fst (handler idOf stripId stringify (arrToMap idOf arr) (arr ++ xs))
  = List.map (fun x => (idOf x, stripId x, added)) xs.
Proof.
  intros Hnd Hfresh. unfold handler. cbn [fst].
  rewrite arrToMap_app_fresh by assumption.
  pose proof (arrToMap_NoDup arr) as Hm.
  set (m := arrToMap idOf arr) in *.
  unfold changes. rewrite flat_map_nil.
  2:{ intros [k v] Hin. cbn.
      now rewrite (mapGet_app_l k v m _ (mapGet_in k v m Hm Hin)). }
  rewrite flat_map_app, flat_map_nil.
  2:{ intros [k v] Hin. cbn. rewrite (mapGet_in k v m Hm Hin). now rewrite eqb_refl. }
  cbn [app]. clear Hnd.
  induction xs as [|x xs IH]; [reflexivity|].
  cbn. rewrite mapGet_none.
  - cbn. f_equal. apply IH. intros y Hy. apply Hfresh. now right.
  - intros H. apply arrToMap_keys in H. eapply Hfresh; [|exact H]. now left.
Qed.

Lemma mapSet_filter_ne (id k : jsstring) (v : T) (m : list (jsstring * T)) :
  k <> id ->
  List.filter (fun kv => negb (eqb (fst kv) id)) (mapSet k v m)
  = mapSet k v (List.filter (fun kv => negb (eqb (fst kv) id)) m).
Proof.
  intros Hk. induction m as [|[k' v'] m IH]; cbn.
  - now rewrite eqb_neq.
  - destruct (eqb k k') eqn:E.
    + apply eqb_eq in E. subst k'. cbn. rewrite eqb_neq by exact Hk. cbn.
      now rewrite eqb_refl.
    + cbn. destruct (eqb k' id) eqn:E'; cbn; [exact IH|].
      now rewrite E, IH.
Qed.

Lemma mapSet_filter_eq (id : jsstring) (v : T) (m : list (jsstring * T)) :
  List.filter (fun kv => negb (eqb (fst kv) id)) (mapSet id v m)
  = List.filter (fun kv => negb (eqb (fst kv) id)) m.
Proof.
  induction m as [|[k' v'] m IH]; cbn.
  - now rewrite eqb_refl.
  - destruct (eqb id k') eqn:E.
    + apply eqb_eq in E. subst k'. cbn. now rewrite eqb_refl.
    + cbn. destruct (eqb k' id) eqn:E'; cbn; [exact IH|]. now rewrite IH.
Qed.

(** Taking the records of one identifier out of the array takes the key
    out of the map and leaves the rest of the map as it is. *)
Lemma arrToMap_filter (id : jsstring) (arr : list T) :
  arrToMap idOf (List.filter (fun r => negb (eqb (idOf r) id)) arr)
  = List.filter (fun kv => negb (eqb (fst kv) id)) (arrToMap idOf arr).
Proof.
  induction arr as [|x arr IH] using rev_ind; [reflexivity|].
  rewrite List.filter_app, arrToMap_snoc. cbn.
  destruct (eqb (idOf x) id) eqn:E; cbn.
  - apply eqb_eq in E. rewrite app_nil_r, IH, E. now rewrite mapSet_filter_eq.
  - rewrite arrToMap_snoc, IH, mapSet_filter_ne; [reflexivity|].
    intros H. now rewrite H, eqb_refl in E.
Qed.

Lemma mapGet_filter_ne (id k : jsstring) (m : list (jsstring * T)) :
  k <> id ->
  mapGet k (List.filter (fun kv => negb (eqb (fst kv) id)) m) = mapGet k m.
Proof.
  intros Hk. induction m as [|[k' v'] m IH]; [reflexivity|]. cbn.
  destruct (eqb k' id) eqn:E; cbn.
  - apply eqb_eq in E. subst k'. now rewrite eqb_neq.
  - now rewrite IH.
Qed.

Lemma mapGet_filter_eq (id : jsstring) (m : list (jsstring * T)) :
  mapGet id (List.filter (fun kv => negb (eqb (fst kv) id)) m) = None.
Proof.
  induction m as [|[k' v'] m IH]; [reflexivity|]. cbn.
  destruct (eqb k' id) eqn:E; cbn; [exact IH|].
  rewrite eqb_neq; [exact IH|]. intros ->. now rewrite eqb_refl in E.
Qed.

Lemma removed_one (id : jsstring) (m : list (jsstring * T)) :
  List.NoDup (keys m) ->
  flat_map
    (fun kv => if eqb (fst kv) id then [(fst kv, stripId (snd kv), removed)] else []) m
  = match mapGet id m with
    | Some v => [(id, stripId v, removed)]
    | None => []
    end.
Proof.
  induction m as [|[k v] m IH]; intros Hnd; [reflexivity|].
  cbn in *. apply List.NoDup_cons_iff in Hnd as [Hk Hnd].
  destruct (eqb k id) eqn:E.
  - apply eqb_eq in E. subst k. rewrite eqb_refl. cbn. f_equal.
    rewrite IH by exact Hnd. now rewrite mapGet_none.
  - rewrite eqb_neq; [now apply IH|]. intros ->. now rewrite eqb_refl in E.
Qed.

(** After the records of one identifier have been filtered out of the
    array, as [removeNote] and [removeEdge] do, the handler reports that
    identifier as [removed], with the data the listener last saw, when it
    knew the identifier, and reports nothing else. *)
Theorem handler_filtered (id : jsstring) (arr : list T) :
  fst (handler idOf stripId stringify (arrToMap idOf arr)
         (List.filter (fun r => negb (eqb (idOf r) id)) arr))
  = match mapGet id (arrToMap idOf arr) with
    | Some v => [(id, stripId v, removed)]
    | None => []
    end.
Proof.
  unfold handler. cbn [fst]. rewrite arrToMap_filter.
  pose proof (arrToMap_NoDup arr) as Hm.
  set (m := arrToMap idOf arr) in *.
  unfold changes. rewrite (flat_map_nil _ (List.filter _ m)).
  2:{ intros [k v] [Hin _]%filter_In. cbn.
      rewrite (mapGet_in k v m Hm Hin). now rewrite eqb_refl. }
  rewrite app_nil_r, <- removed_one by exact Hm.
  apply flat_map_pointwise. intros [k v] Hin. cbn.
  destruct (eqb k id) eqn:E.
  - apply eqb_eq in E. subst k. now rewrite mapGet_filter_eq.
  - rewrite mapGet_filter_ne by (intros ->; now rewrite eqb_refl in E).
    now rewrite (mapGet_in k v m Hm Hin).
Qed.

End Handler.

End ListenFacts.

(** ** The deriver, task by task *)

Section DeriverInvariants.
Import JsString JsRegExp AISummary.

Variable randomUUID : nat -> jsstring.

Lemma insertBy_perm {A} (cmp : A -> A -> Z) (x : A) (l : list A) :
  Permutation (JsArray.insertBy cmp x l) (x :: l).
Proof.
  induction l as [|y l IH]; cbn; [reflexivity|].
  destruct (cmp x y <=? 0)%Z; [reflexivity|].
  etransitivity; [apply perm_skip, IH | apply perm_swap].
Qed.

Lemma sort_perm {A} (cmp : A -> A -> Z) (l : list A) : Permutation (JsArray.sort cmp l) l.
Proof.
  induction l as [|x l IH]; [reflexivity|].
  unfold JsArray.sort in *. cbn.
  etransitivity; [apply insertBy_perm | apply perm_skip, IH].
Qed.

#[local] Abbreviation good :=
  (fun t : DerivedTask =>
     looksActionable (dt_title t) = true
     /\ (6 <= List.length (dt_title t))%nat
     /\ trim (dt_title t) = dt_title t
     /\ dt_prio t = detectPriority (dt_title t)
     /\ dt_lane t = detectLane (dt_title t)).

#[local] Abbreviation keyOf := (fun t : DerivedTask => dedupKey (dt_title t)).

Lemma collectTasks_inv (max : Z) (raw : list jsstring) (seen : gset jsstring)
    (tasks : list DerivedTask) :
  Forall (fun l => trim l = l) raw ->
  Forall good tasks ->
  List.NoDup (List.map keyOf tasks) ->
  (forall t, In t tasks -> keyOf t ∈ seen) ->
  List.map dt_id tasks = List.map randomUUID (seq 0 (List.length tasks)) ->
  Forall good (collectTasks randomUUID max raw seen tasks)
  /\ List.NoDup (List.map keyOf (collectTasks randomUUID max raw seen tasks))
  /\ List.map dt_id (collectTasks randomUUID max raw seen tasks)
     = List.map randomUUID
         (seq 0 (List.length (collectTasks randomUUID max raw seen tasks))).
Proof.
  intros Hraw. revert seen tasks.
  induction Hraw as [|line rest Hline _ IH]; intros seen tasks Hgood Hnd Hseen Hids;
    cbn [collectTasks]; [auto|].
  destruct (isEmpty line || (List.length line <? 6)%nat) eqn:Eshort; [auto|].
  destruct (negb (looksActionable line)) eqn:Eact; [auto|].
  destruct (bool_decide (dedupKey line ∈ seen)) eqn:Eseen; [auto|].
  apply orb_false_elim in Eshort as [_ Elen]. apply Nat.ltb_ge in Elen.
  apply negb_false_iff in Eact. apply bool_decide_eq_false_1 in Eseen.
  set (new := mkDerivedTask _ _ _ _).
  assert (Forall good (tasks ++ [new])) as Hgood'.
  { apply Forall_app. split; [exact Hgood|]. repeat constructor; assumption. }
  assert (List.NoDup (List.map keyOf (tasks ++ [new]))) as Hnd'.
  { rewrite List.map_app. apply List.NoDup_app; [exact Hnd | repeat constructor; intros [] |].
    intros k Hk [<-|[]]. apply in_map_iff in Hk as (t & Ht & Hin).
    apply Eseen. replace (dedupKey line) with (dedupKey (dt_title t)) by exact Ht.
    now apply Hseen. }
  assert (List.map dt_id (tasks ++ [new])
          = List.map randomUUID (seq 0 (List.length (tasks ++ [new])))) as Hids'.
  { rewrite length_app. cbn [List.length]. rewrite seq_app, !List.map_app, Hids.
    reflexivity. }
  destruct (Z.of_nat (List.length (tasks ++ [new])) >=? max)%Z; [auto|].
  apply IH; try assumption.
  intros t [Ht|[<-|[]]]%in_app_or.
  - apply elem_of_union_r. now apply Hseen.
  - apply elem_of_union_l, elem_of_singleton. reflexivity.
Qed.

Lemma rawLines_trimmed (text : jsstring) :
  Forall (fun l => trim l = l) (rawLines text).
Proof.
  unfold rawLines. apply List.Forall_forall. intros l Hl.
  apply in_flat_map in Hl as (s & _ & Hl).
  apply in_map_iff in Hl as (x & <- & _).
  apply trim_idem.
Qed.

Lemma discovered_inv (text : jsstring) (max : Z) :
  Forall good (discovered randomUUID text max)
  /\ List.NoDup (List.map keyOf (discovered randomUUID text max))
  /\ List.map dt_id (discovered randomUUID text max)
     = List.map randomUUID (seq 0 (List.length (discovered randomUUID text max))).
Proof.
  apply collectTasks_inv; try constructor.
  - apply rawLines_trimmed.
  - intros t [].
Qed.

Lemma derived_good (text : jsstring) (max : option Z) :
  Forall good (deriveTasksFromTranscript randomUUID text max).
Proof.
  unfold deriveTasksFromTranscript.
  destruct (isEmpty (trim text)); [constructor|].
  destruct (discovered_inv text (default 8%Z max)) as (Hgood & _).
  eapply Permutation_Forall; [symmetry; apply sort_perm | exact Hgood].
Qed.

(** Every task the deriver returns has a title that passed the test of
    an actionable line, has at least six characters and is trimmed, and has
    the priority and the lane its title gives; no two tasks have the same
    comparison key; and the identifiers are those of the host's generator,
    one call per task. *)
Theorem deriveTasksFromTranscript_tasks (text : jsstring) (max : option Z) :
  let r := deriveTasksFromTranscript randomUUID text max in
  Forall
    (fun t =>
       looksActionable (dt_title t) = true
       /\ (6 <= List.length (dt_title t))%nat
       /\ trim (dt_title t) = dt_title t
       /\ dt_prio t = detectPriority (dt_title t)
       /\ dt_lane t = detectLane (dt_title t)) r
  /\ List.NoDup (List.map (fun t => dedupKey (dt_title t)) r)
  /\ Permutation (List.map dt_id r) (List.map randomUUID (seq 0 (List.length r))).
Proof.
  cbv zeta. split; [apply derived_good|].
  unfold deriveTasksFromTranscript.
  destruct (isEmpty (trim text)); [split; constructor|].
  destruct (discovered_inv text (default 8%Z max)) as (_ & Hnd & Hids).
  pose proof (sort_perm (fun a b => (dt_prio a - dt_prio b)%Z)
                (discovered randomUUID text (default 8%Z max))) as Hp.
  split.
  - eapply Permutation_NoDup; [|exact Hnd]. symmetry. now apply Permutation_map.
  - rewrite (Permutation_length Hp), <- Hids. now apply Permutation_map.
Qed.

End DeriverInvariants.

(** ** The summary view: priorities read back from note texts *)

Section SummaryFacts.
Import JsString JsRegExp AISummary.

Variable randomUUID : nat -> jsstring.

Ltac literals :=
  repeat match goal with
         | |- context [JsString.lit ?s] =>
             let k := eval vm_compute in (JsString.lit s) in
             change (JsString.lit s) with k
         end.

Lemma lastOr_cons (p q : option N) (w : jsstring) : w <> [] -> lastOr p w = lastOr q w.
Proof.
  intros H. unfold lastOr. destruct (List.rev w) eqn:E; [|reflexivity].
  apply (f_equal (@List.rev N)) in E. rewrite rev_involutive in E. contradiction.
Qed.

(** A space before the text is as good as the start of the text. *)
Lemma hasWordFrom_space (w t : jsstring) :
  w <> [] -> hasWordFrom w (Some 32) t = hasWordFrom w None t.
Proof.
  intros H. destruct t as [|c r]; cbn [hasWordFrom]; unfold wordAt;
    now rewrite (lastOr_cons (Some 32) None w H).
Qed.

Lemma toLowerCase_app (a b : jsstring) :
  toLowerCase (a ++ b) = toLowerCase a ++ toLowerCase b.
Proof. apply flat_map_app. Qed.

Lemma scorePriority_label (p : Z) (title : jsstring) :
  (0 <= p <= 2)%Z ->
  scorePriority (js "[P" ++ js (NilZero.string_of_int (Z.to_int p)) ++ js "] " ++ title)
  = Z.min p (scorePriority title).
Proof.
  intros H. unfold scorePriority.
  rewrite !toLowerCase_app. set (u := toLowerCase title).
  assert (p = 0 \/ p = 1 \/ p = 2)%Z as [ -> | [ -> | -> ] ] by lia;
    cbn [existsb]; literals;
    match goal with
    | |- context [toLowerCase ?l ++ toLowerCase ?d ++ toLowerCase ?r ++ u] =>
        let k := eval vm_compute in (toLowerCase l ++ toLowerCase d ++ toLowerCase r) in
        change (toLowerCase l ++ toLowerCase d ++ toLowerCase r ++ u) with (k ++ u)
    end;
    unfold hasWord; cbn; rewrite ?hasWordFrom_space by discriminate;
    repeat match goal with
           | |- context [if ?b then _ else _] => destruct b
           end;
    reflexivity.
Qed.

(** The priority [scorePriority] reads from the text of a pseudo-note
    is the smaller of the priority of the task, which the text shows as its
    tag, and the priority it reads from the title. *)
Theorem scorePriority_pseudoNote (t : DerivedTask) :
  (0 <= dt_prio t <= 2)%Z ->
  scorePriority (pseudoNoteText t) = Z.min (dt_prio t) (scorePriority (dt_title t)).
Proof. apply scorePriority_label. Qed.

Lemma hasWordFrom_includes (w : jsstring) (prev : option N) (s : jsstring) :
  hasWordFrom w prev s = true -> includes s w = true.
Proof.
  revert prev. induction s as [|c r IH]; intros prev; cbn [hasWordFrom includes].
  - rewrite orb_false_r. unfold wordAt. intros [[_ H]%andb_prop _]%andb_prop.
    now rewrite H.
  - intros [H|H]%orb_prop.
    + unfold wordAt in H. apply andb_prop in H as [[_ H]%andb_prop _]. now rewrite H.
    + apply IH in H. rewrite H. apply orb_true_r.
Qed.

Lemma words_hints (words : list string) (hints : list jsstring) (t : jsstring) :
  (forall w, In w words -> In (js w) hints) ->
  existsb (fun w => hasWord (js w) t) words = true ->
  existsb (includes t) hints = true.
Proof.
  intros Hsub (w & Hin & Hw)%existsb_exists. apply existsb_exists.
  exists (js w). split; [now apply Hsub|]. now apply hasWordFrom_includes in Hw.
Qed.

(** What the deriver reads from a title is never the lesser urgency. *)
Lemma detectPriority_le_scorePriority (s : jsstring) :
  (0 <= detectPriority s <= scorePriority s)%Z /\ (scorePriority s <= 2)%Z.
Proof.
  unfold detectPriority, scorePriority. set (t := toLowerCase s).
  destruct (existsb (fun w => hasWord (js w) t) ["p0"; "blocker"; "critical"; "must"]%string)
    eqn:E0.
  - assert (existsb (includes t) P0_HINTS = true) as ->; [|lia].
    eapply words_hints; [|exact E0].
    intros w Hw. unfold P0_HINTS. apply in_map. cbn in *. tauto.
  - destruct (existsb (fun w => hasWord (js w) t) ["p1"; "important"; "high"]%string) eqn:E1.
    + assert (existsb (includes t) P1_HINTS = true) as ->.
      * eapply words_hints; [|exact E1].
        intros w Hw. unfold P1_HINTS. apply in_map. cbn in *. tauto.
      * destruct (existsb (includes t) P0_HINTS); lia.
    + destruct (existsb (includes t) P0_HINTS), (existsb (includes t) P1_HINTS); lia.
Qed.

(** For the tasks of the deriver the tag decides: the priority the
    summary view reads back from the pseudo-note of a derived task, and
    sorts the lane by, is the priority of the task. *)
Theorem deriveTasksFromTranscript_label_priority (text : jsstring) (max : option Z) :
  Forall (fun t => scorePriority (pseudoNoteText t) = dt_prio t)
    (deriveTasksFromTranscript randomUUID text max).
Proof.
  eapply List.Forall_impl; [|apply derived_good].
  intros t (_ & _ & _ & Hp & _). unfold pseudoNoteText.
  pose proof (detectPriority_le_scorePriority (dt_title t)) as [[H0 H1] H2].
  rewrite scorePriority_label by lia. lia.
Qed.

End SummaryFacts.

(** ** The keys of the task mapping, and the plan the application falls
    back on *)

Section ApplierKeys.
Import JsString Three Db PlanApply Spec App.

Variable uid : nat -> jsstring.
Variable applyQuaternion : Vector3 -> Quaternion -> Vector3.

#[local] Abbreviation keyOfTask :=
  (fun t : Task => default [] (orStr (task_id t) (Some (task_title t)))).

Lemma groupByLane_sub (cap : float) (lanes : list jsstring) (ts : list Task)
    (lane : jsstring) (t : Task) :
  In t (default [] (groupByLane cap lanes ts !! lane)) -> In t ts.
Proof.
  unfold groupByLane.
  set (step := fun (byLane : gmap jsstring (list Task)) (t : Task) => _).
  set (m0 := foldl _ ∅ lanes).
  assert (forall l, default [] (m0 !! l) = []) as H0.
  { intros l. unfold m0. rewrite emptyLanes_lookup.
    destruct (bool_decide _); [reflexivity | now rewrite lookup_empty]. }
  revert lane t. induction ts as [|x ts IH] using rev_ind; intros lane t.
  - cbn [foldl]. rewrite H0. intros [].
  - rewrite foldl_app. cbn [foldl]. unfold step at 1.
    set (m := foldl step m0 ts) in *.
    intros H. apply in_or_app.
    destruct (PrimFloat.ltb _ _); [|left; eapply IH, H].
    destruct (decide (laneOfTask lanes x = lane)) as [<-|Hne].
    + rewrite lookup_insert_eq in H. cbn [default from_option] in H. unfold id in H.
      apply in_app_or in H as [H|[<-|[]]]; [left; eapply IH, H | right; now left].
    + rewrite lookup_insert_ne in H by exact Hne. left. eapply IH, H.
Qed.

Lemma placeTasks_keys (L : Layout) (lane : jsstring) (lx r : nat) (ts : list Task)
    (ids ids' : gmap jsstring jsstring) (w w' : World) (k v : jsstring) :
  placeTasks uid L lane lx r ts ids w = (inr ids', w') ->
  ids' !! k = Some v ->
  (exists t, In t ts /\ k = keyOfTask t) \/ ids !! k = Some v.
Proof.
  revert r ids w. induction ts as [|t rest IH]; intros r ids w Hrun Hk.
  - cbn in Hrun. injection Hrun as <- _. now right.
  - cbn [placeTasks] in Hrun.
    match type of Hrun with
    | context [placeNote uid ?a] =>
        destruct (placeNote_trace uid a w) as (w1 & n & Hnote & _)
    end.
    erewrite bind_run in Hrun by exact Hnote.
    destruct (IH _ _ _ Hrun Hk) as [(t' & Hin & ->)|Hk'].
    + left. exists t'. split; [now right | reflexivity].
    + destruct (decide (keyOfTask t = k)) as [<-|Hne].
      * left. exists t. split; [now left | reflexivity].
      * right. now rewrite lookup_insert_ne in Hk' by exact Hne.
Qed.

Lemma placeLanes_keys (L : Layout) (lx : nat) (lanes : list jsstring)
    (ids ids' : gmap jsstring jsstring) (w w' : World) (k v : jsstring) :
  placeLanes uid L lx lanes ids w = (inr ids', w') ->
  ids' !! k = Some v ->
  (exists lane t, In t (default [] (l_byLane L !! lane)) /\ k = keyOfTask t)
  \/ ids !! k = Some v.
Proof.
  revert lx ids w. induction lanes as [|lane rest IH]; intros lx ids w Hrun Hk.
  - cbn in Hrun. injection Hrun as <- _. now right.
  - cbn [placeLanes] in Hrun.
    match type of Hrun with
    | context [placeNote uid ?a] =>
        destruct (placeNote_trace uid a w) as (w1 & n & Hnote & _)
    end.
    erewrite bind_run in Hrun by exact Hnote.
    destruct (placeTasks_run uid L lane lx 0 (default [] (l_byLane L !! lane)) ids w1)
      as (ids1 & w2 & Htasks & _).
    erewrite bind_run in Hrun by exact Htasks.
    destruct (IH _ _ _ Hrun Hk) as [Hl|Hk1]; [now left|].
    destruct (placeTasks_keys _ _ _ _ _ _ _ _ _ _ _ Htasks Hk1) as [(t & Hin & ->)|Hk0].
    + left. now exists lane, t.
    + now right.
Qed.

(** Every key of the task mapping the note loops leave is the [id] of a
    task of the plan or, for a task without one, its title; a title of a
    task that has an [id] is no key. *)
Theorem idByTaskKey_keys (b : jsstring) (board : Object3D) (wp : WorkPlan) (ts : list Task)
    (opts : option Options) (w : World) (k v : jsstring) :
  idByTaskKeyAfterNotes uid applyQuaternion b board wp ts opts w !! k = Some v ->
  exists t, In t ts /\ k = default [] (orStr (task_id t) (Some (task_title t))).
Proof.
  unfold idByTaskKeyAfterNotes.
  destruct (placeLanes_run uid (layoutOf applyQuaternion b board wp ts opts) 0 (lanesOf wp) ∅ w)
    as (ids & w1 & Hrun & _).
  rewrite Hrun. cbn [fst]. intros Hk.
  destruct (placeLanes_keys _ _ _ _ _ _ _ _ _ Hrun Hk) as [(lane & t & Hin & ->)|Hk0].
  - exists t. split; [|reflexivity]. eapply groupByLane_sub, Hin.
  - now rewrite lookup_empty in Hk0.
Qed.

(** The plan the application falls back on names the ends of its two
    edges by the titles of tasks that have an [id]: applied to a placed
    board, whatever the world, the options and the identifiers, it ends
    without error and adds no edge. *)
Theorem applyPlanToWall_demoAI (b : jsstring) (xr : XR) (opts : option Options) (w : World)
    (board : Object3D) :
  boardOf xr = Some board ->
  let r := applyPlanToWall uid applyQuaternion b xr (Some demoAI) opts w in
  fst r = inr tt /\ newEdges b w (snd r) = [] /\ readEdges b (snd r) = readEdges b w.
Proof.
  intros Hb.
  destruct (workplan demoAI) as [wp|] eqn:Ewp; [|discriminate].
  destruct (tasksToApply (Some demoAI)) as [|t ts] eqn:Et; [discriminate|].
  destruct (applyPlanToWall_trace uid applyQuaternion b xr (Some demoAI) opts w wp t ts board
              Ewp Et Hb)
    as (ids & w1 & w' & ns & es & Hids & Hrun & R1 & R2 & _ & Hends & _).
  assert (forall k, In k (List.map js ["Build AR note board"; "Integrate STT";
                                       "Run AI summary with Gemini"]%string) ->
                    ids !! k = None) as Hnone.
  { intros k Hk. destruct (ids !! k) as [v|] eqn:E; [exfalso|reflexivity].
    destruct (placeLanes_keys _ _ _ _ _ _ _ _ _ Hids E) as [(lane & t' & Hin & ->)|E0].
    - apply groupByLane_sub in Hin. injection Et as <- <-.
      destruct Hin as [<-|[<-|[<-|[]]]];
        vm_compute in Hk; intuition discriminate.
    - now rewrite lookup_empty in E0. }
  assert (es = []) as ->.
  { apply (map_eq_nil (fun e => (edge_from e, edge_to e))). rewrite Hends.
    cbn [workflow_edges demoAI mbind option_bind default from_option id wiring flat_map
         we_from we_to].
    unfold resolve, normalizeKey.
    rewrite !Hnone by (vm_compute; tauto). reflexivity. }
  cbv zeta. rewrite Hrun. cbn [fst snd].
  destruct (runs_new uid b w w1 w' ns [] R1 R2) as [_ ->].
  destruct R1 as (_ & _ & E1 & _), R2 as (E2 & _).
  repeat split. rewrite E2, app_nil_r. unfold readEdges. now rewrite E1.
Qed.

(** What [ensureRenderableAIOut] returns has a task, is the state the
    component is left in, and is returned again by a second call, which does
    not look at the planner; handed to [applyPlanToWall], it never meets
    the guard of the missing tasks: the call ends without error on a placed
    board and fails with "Board not placed yet." otherwise. *)
Theorem ensureRenderableAIOut_applies (build : Error + AIOutput) (aiOut : option AIOutput)
    (out : AIOutput) (st : option AIOutput) :
  ensureRenderableAIOut build aiOut = (inr out, st) ->
  hasRenderable (Some out) = true
  /\ st = Some out
  /\ (forall build', ensureRenderableAIOut build' st = (inr out, st))
  /\ (forall b xr opts w,
        match boardOf xr with
        | Some _ => fst (applyPlanToWall uid applyQuaternion b xr (Some out) opts w) = inr tt
        | None =>
            applyPlanToWall uid applyQuaternion b xr (Some out) opts w
            = (inl (JsError (js "Board not placed yet.")), w)
        end).
Proof.
  intros H.
  assert (hasRenderable (Some out) = true /\ st = Some out) as [Hr ->].
  { unfold ensureRenderableAIOut in H.
    destruct aiOut as [o|].
    - destruct (hasRenderable (Some o)) eqn:Eo.
      + injection H as <- <-. auto.
      + destruct build as [e|built]; [discriminate|].
        destruct (hasRenderable (Some built)) eqn:Eb; injection H as <- <-; auto.
    - destruct build as [e|built]; [discriminate|].
      destruct (hasRenderable (Some built)) eqn:Eb; injection H as <- <-; auto. }
  split; [exact Hr|]. split; [reflexivity|]. split.
  - intros build'. unfold ensureRenderableAIOut. now rewrite Hr.
  - intros b xr opts w.
    assert (exists t ts, tasksToApply (Some out) = t :: ts) as (t & ts & Ht).
    { unfold hasRenderable in Hr. unfold tasksToApply.
      destruct ((Some out ≫= workplan) ≫= tasks) as [[|t ts]|]; try discriminate.
      now exists t, ts. }
    destruct (boardOf xr) as [board|] eqn:Hb.
    + now destruct (applyPlanToWall_run uid applyQuaternion b xr (Some out) opts w t ts board
                      Ht Hb) as (w' & -> & _).
    + apply applyPlanToWall_no_board; [now rewrite Ht | exact Hb].
Qed.

End ApplierKeys.

(** ** Instances *)

Section Instances.
Import JsString Three Db PlanApply AISummary App.

(** Nine tasks of the lane Backend: the lane holds the first eight. *)
Lemma groupByLane_first_eight_sample :
  In (js "Backend") [js "Frontend"; js "Backend"]
  /\ groupByLane 8%float [js "Frontend"; js "Backend"]
       (List.repeat (Spec.taskInLane "Build API" "Backend") 9) !! js "Backend"
     = Some (Spec.firstEight [js "Frontend"; js "Backend"] (js "Backend")
               (List.repeat (Spec.taskInLane "Build API" "Backend") 9)).
Proof.
  split; [right; left; reflexivity|].
  apply (groupByLane_first_eight [js "Frontend"; js "Backend"]
           (List.repeat (Spec.taskInLane "Build API" "Backend") 9) (js "Backend")).
  right; left; reflexivity.
Defined.

(** The plan of tasks "A" and "B" on the placed board. *)
Lemma applyPlanToWall_note_texts_sample :
  Some Spec.outAB ≫= workplan = Some Spec.planAB
  /\ tasksToApply (Some Spec.outAB) = [Spec.taskTitled "A"; Spec.taskTitled "B"]
  /\ boardOf Spec.placed = Some Spec.wallBoard
  /\ List.map (fun n => n_text (note_doc n))
       (Spec.newNotes (js "wall") Spec.userWorld
          (snd (applyPlanToWall Spec.sampleId Spec.rotate (js "wall") Spec.placed
                  (Some Spec.outAB) None Spec.userWorld)))
     = Spec.planTexts
         (groupByLane (default 8%float (None ≫= o_maxPerLane)) (lanesOf Spec.planAB)
            [Spec.taskTitled "A"; Spec.taskTitled "B"])
         (lanesOf Spec.planAB).
Proof.
  split; [reflexivity|]. split; [reflexivity|]. split; [reflexivity|].
  apply (applyPlanToWall_note_texts Spec.sampleId Spec.rotate (js "wall") Spec.placed
           (Some Spec.outAB) None Spec.userWorld Spec.planAB (Spec.taskTitled "A")
           [Spec.taskTitled "B"] Spec.wallBoard); reflexivity.
Defined.

Lemma applyPlanToWall_other_boards_sample :
  js "desk" <> js "wall"
  /\ (let w' :=
        snd (applyPlanToWall Spec.sampleId Spec.rotate (js "wall") Spec.placed
               (Some Spec.outAB) None Spec.userWorld) in
      notesStore w' !! js "desk" = notesStore Spec.userWorld !! js "desk"
      /\ edgesStore w' !! js "desk" = edgesStore Spec.userWorld !! js "desk").
Proof.
  split; [discriminate|].
  apply (applyPlanToWall_other_boards Spec.sampleId Spec.rotate (js "wall") (js "desk")
           Spec.placed (Some Spec.outAB) None Spec.userWorld).
  discriminate.
Defined.

Lemma applyPlanToWall_wiring_sample :
  Some Spec.outAB ≫= workplan = Some Spec.planAB
  /\ tasksToApply (Some Spec.outAB) = [Spec.taskTitled "A"; Spec.taskTitled "B"]
  /\ boardOf Spec.placed = Some Spec.wallBoard
  /\ List.map (fun e => (edge_from e, edge_to e))
       (Spec.newEdges (js "wall") Spec.userWorld
          (snd (applyPlanToWall Spec.sampleId Spec.rotate (js "wall") Spec.placed
                  (Some Spec.outAB) None Spec.userWorld)))
     = Spec.wiring
         (Spec.idByTaskKeyAfterNotes Spec.sampleId Spec.rotate (js "wall") Spec.wallBoard
            Spec.planAB [Spec.taskTitled "A"; Spec.taskTitled "B"] None Spec.userWorld)
         (default [] (Some Spec.outAB ≫= workflow_edges)).
Proof.
  split; [reflexivity|]. split; [reflexivity|]. split; [reflexivity|].
  apply (applyPlanToWall_wiring Spec.sampleId Spec.rotate (js "wall") Spec.placed
           (Some Spec.outAB) None Spec.userWorld Spec.planAB (Spec.taskTitled "A")
           [Spec.taskTitled "B"] Spec.wallBoard); reflexivity.
Defined.

(** On the wall with the user's note id0 the generator goes on with
    id1, id2, ...: no edge of the plan touches the user's note. *)
Lemma applyPlanToWall_edges_join_new_notes_sample :
  (forall n i,
     In n (readNotes (js "wall") Spec.userWorld) ->
     (uidCalls Spec.userWorld <= i)%nat -> note_id n <> Spec.sampleId i)
  /\ Forall
       (fun e =>
          ~ In (edge_from e) (List.map note_id (readNotes (js "wall") Spec.userWorld))
          /\ ~ In (edge_to e) (List.map note_id (readNotes (js "wall") Spec.userWorld)))
       (Spec.newEdges (js "wall") Spec.userWorld
          (snd (applyPlanToWall Spec.sampleId Spec.rotate (js "wall") Spec.placed
                  (Some Spec.outAB) None Spec.userWorld))).
Proof.
  assert (forall n i,
            In n (readNotes (js "wall") Spec.userWorld) ->
            (uidCalls Spec.userWorld <= i)%nat -> note_id n <> Spec.sampleId i) as H.
  { intros n i [<-|[]] Hi. cbn in Hi. unfold Spec.sampleId. cbn.
    intros [= E]. lia. }
  split; [exact H|].
  apply (proj2 (applyPlanToWall_edges_join_new_notes Spec.sampleId Spec.rotate (js "wall")
                  Spec.placed (Some Spec.outAB) None Spec.userWorld) H).
Defined.

(** The plan with tasks "A" and "B" and the edges A-B and A-C, on a
    placed board that holds the user's note: "C" does not resolve, and the
    call ends as for the plan with the edge A-B alone, with the header and
    the two task notes and with the one edge from "A" to "B". *)
Lemma applyPlanToWall_edges_best_effort_sample :
  tasks Spec.planAB = Some [Spec.taskTitled "A"; Spec.taskTitled "B"]
  /\ boardOf Spec.placed = Some Spec.wallBoard
  /\ truthyStr
       (resolve
          (Spec.idByTaskKeyAfterNotes Spec.sampleId Spec.rotate (js "wall") Spec.wallBoard
             Spec.planAB [Spec.taskTitled "A"; Spec.taskTitled "B"] None Spec.userWorld)
          (js "C")) = false
  /\ (let ids :=
        Spec.idByTaskKeyAfterNotes Spec.sampleId Spec.rotate (js "wall") Spec.wallBoard
          Spec.planAB [Spec.taskTitled "A"; Spec.taskTitled "B"] None Spec.userWorld in
      let r :=
        applyPlanToWall Spec.sampleId Spec.rotate (js "wall") Spec.placed
          (Some (mkAIOutput [] (Some Spec.planAB) (Some ([Spec.edgeAB] ++ Spec.edgeAC :: []))))
          None Spec.userWorld in
      fst r = inr tt
      /\ r = applyPlanToWall Spec.sampleId Spec.rotate (js "wall") Spec.placed
               (Some (mkAIOutput [] (Some Spec.planAB) (Some ([Spec.edgeAB] ++ []))))
               None Spec.userWorld
      /\ readNotes (js "wall") (snd r)
         = readNotes (js "wall") Spec.userWorld
           ++ Spec.newNotes (js "wall") Spec.userWorld (snd r)
      /\ List.map (fun n => n_text (note_doc n))
           (Spec.newNotes (js "wall") Spec.userWorld (snd r))
         = Spec.planTexts
             (groupByLane (default 8%float (None ≫= o_maxPerLane)) (lanesOf Spec.planAB)
                [Spec.taskTitled "A"; Spec.taskTitled "B"])
             (lanesOf Spec.planAB)
      /\ readEdges (js "wall") (snd r)
         = readEdges (js "wall") Spec.userWorld
           ++ Spec.newEdges (js "wall") Spec.userWorld (snd r)
      /\ List.map (fun x => (edge_from x, edge_to x))
           (Spec.newEdges (js "wall") Spec.userWorld (snd r))
         = Spec.wiring ids [Spec.edgeAB] ++ Spec.wiring ids [])
  /\ List.map (fun n => n_text (note_doc n))
       (readNotes (js "wall")
          (snd (applyPlanToWall Spec.sampleId Spec.rotate (js "wall") Spec.placed
                  (Some (mkAIOutput [] (Some Spec.planAB)
                           (Some ([Spec.edgeAB] ++ Spec.edgeAC :: []))))
                  None Spec.userWorld)))
     = [js "Buy milk"; [55357; 56770] ++ js " Tasks"; js "[P1] A"; js "[P1] B"]
  /\ List.map (fun x => (edge_from x, edge_to x))
       (readEdges (js "wall")
          (snd (applyPlanToWall Spec.sampleId Spec.rotate (js "wall") Spec.placed
                  (Some (mkAIOutput [] (Some Spec.planAB)
                           (Some ([Spec.edgeAB] ++ Spec.edgeAC :: []))))
                  None Spec.userWorld)))
     = [(js "id2", js "id3")].
Proof.
  assert (truthyStr
            (resolve
               (Spec.idByTaskKeyAfterNotes Spec.sampleId Spec.rotate (js "wall")
                  Spec.wallBoard Spec.planAB [Spec.taskTitled "A"; Spec.taskTitled "B"] None
                  Spec.userWorld)
               (js "C")) = false) as H by (vm_compute; reflexivity).
  split; [reflexivity|]. split; [reflexivity|]. split; [exact H|].
  split; [|split; vm_compute; reflexivity].
  apply (proj2 (applyPlanToWall_edges_best_effort Spec.sampleId Spec.rotate)
           (js "wall") Spec.placed [] Spec.planAB (Spec.taskTitled "A") [Spec.taskTitled "B"]
           Spec.wallBoard None Spec.userWorld [Spec.edgeAB] Spec.edgeAC []).
  - reflexivity.
  - reflexivity.
  - right. exact H.
Defined.

(** The plan of tasks "A" and "B" on a board that stands at (1, 0.5, 2)
    and faces the other way: the column at the board-local x = -0.6 lies
    at the world x = 1.6, and every quaternion stored is the identity. *)
Lemma applyPlanToWall_notes_unrotated_sample :
  Some Spec.outAB ≫= workplan = Some Spec.planAB
  /\ tasksToApply (Some Spec.outAB) = [Spec.taskTitled "A"; Spec.taskTitled "B"]
  /\ boardOf Spec.turned = Some Spec.turnedBoard
  /\ List.map (fun n => position (n_pose (note_doc n)))
       (Spec.newNotes (js "wall") Spec.userWorld
          (snd (applyPlanToWall Spec.sampleId Spec.rotate (js "wall") Spec.turned
                  (Some Spec.outAB) None Spec.userWorld)))
     = List.map
         (fun p =>
            Spec.storedPoint
              (Three.add (Spec.rotate p (worldQuaternion Spec.turnedBoard))
                 (worldPosition Spec.turnedBoard)))
         (Spec.planPoints
            (layoutOf Spec.rotate (js "wall") Spec.turnedBoard Spec.planAB
               [Spec.taskTitled "A"; Spec.taskTitled "B"] None)
            0 (lanesOf Spec.planAB))
  /\ List.map (fun n => (position (n_pose (note_doc n)), quaternion (n_pose (note_doc n))))
       (Spec.newNotes (js "wall") Spec.userWorld
          (snd (applyPlanToWall Spec.sampleId Spec.rotate (js "wall") Spec.turned
                  (Some Spec.outAB) None Spec.userWorld)))
     = [((Some 1.6000000000000001, Some 0.84999999999999998, Some 2),
         (Some 0, Some 0, Some 0, Some 1));
        ((Some 1.6000000000000001, Some 0.64999999999999991, Some 2),
         (Some 0, Some 0, Some 0, Some 1));
        ((Some 1.6000000000000001, Some 0.44999999999999996, Some 2),
         (Some 0, Some 0, Some 0, Some 1))]%float.
Proof.
  split; [reflexivity|]. split; [reflexivity|]. split; [reflexivity|].
  split; [|vm_compute; reflexivity].
  apply (proj2 (applyPlanToWall_notes_unrotated Spec.sampleId Spec.rotate)
           (js "wall") Spec.turned (Some Spec.outAB) None Spec.userWorld Spec.planAB
           (Spec.taskTitled "A") [Spec.taskTitled "B"] Spec.turnedBoard);
    reflexivity.
Defined.

(** On the wall with the user's note id0, the next identifier is id1. *)
Lemma removeNote_after_addNote_sample :
  Forall (fun n => note_id n <> Spec.sampleId (uidCalls Spec.userWorld))
    (readNotes (js "wall") Spec.userWorld)
  /\ match addNote Spec.sampleId (js "wall") Spec.anotherDoc Spec.userWorld with
     | (inr id, w1) =>
         readNotes (js "wall") (snd (removeNote (js "wall") id w1))
         = readNotes (js "wall") Spec.userWorld
     | (inl _, _) => False
     end.
Proof.
  assert (Forall (fun n => note_id n <> Spec.sampleId (uidCalls Spec.userWorld))
            (readNotes (js "wall") Spec.userWorld)) as H.
  { vm_compute. repeat constructor. discriminate. }
  split; [exact H|].
  apply (removeNote_after_addNote Spec.sampleId (js "wall") Spec.anotherDoc Spec.userWorld H).
Defined.


Lemma handler_appended_sample :
  List.NoDup (List.map note_id [Spec.anotherNote])
  /\ fst (handler note_id note_doc Spec.sampleStringify
            (arrToMap note_id [Spec.userNote])
            ([Spec.userNote]
             ++ [Spec.anotherNote]))
     = List.map (fun x => (note_id x, note_doc x, added))
         [Spec.anotherNote].
Proof.
  assert (List.NoDup (List.map note_id [Spec.anotherNote])) as H.
  { repeat constructor. intros []. }
  split; [exact H|].
  apply (handler_appended note_id note_doc Spec.sampleStringify
           [Spec.userNote] [Spec.anotherNote] H).
  intros x [<-|[]] [E|[]]. discriminate.
Defined.

Lemma initialCalls_distinct_sample :
  List.NoDup
    (List.map note_id
       [Spec.userNote; Spec.anotherNote])
  /\ initialCalls note_doc
       (arrToMap note_id
          [Spec.userNote; Spec.anotherNote])
     = List.map (fun x => (note_id x, note_doc x, added))
         [Spec.userNote; Spec.anotherNote].
Proof.
  assert (List.NoDup
            (List.map note_id
               [Spec.userNote;
                Spec.anotherNote])) as H.
  { repeat constructor; cbn; [intros [E|[]]; discriminate | intros []]. }
  split; [exact H|].
  apply (initialCalls_distinct note_id note_doc _ H).
Defined.

(** A task of priority 2 whose title holds the word "must". *)
Lemma scorePriority_pseudoNote_sample :
  (0 <= 2 <= 2)%Z
  /\ scorePriority
       (pseudoNoteText (mkDerivedTask (js "id0") (js "Users must log in") Frontend 2))
     = Z.min 2 (scorePriority (js "Users must log in")).
Proof.
  split; [lia|].
  apply (scorePriority_pseudoNote
           (mkDerivedTask (js "id0") (js "Users must log in") Frontend 2)).
  cbn. lia.
Defined.

Lemma idByTaskKey_keys_sample :
  Spec.idByTaskKeyAfterNotes Spec.sampleId Spec.rotate (js "wall") Spec.wallBoard
    Spec.planAB [Spec.taskTitled "A"; Spec.taskTitled "B"] None Spec.emptyWorld !! js "A"
  = Some (js "id1")
  /\ exists t,
       In t [Spec.taskTitled "A"; Spec.taskTitled "B"]
       /\ js "A" = default [] (orStr (task_id t) (Some (task_title t))).
Proof.
  assert (Spec.idByTaskKeyAfterNotes Spec.sampleId Spec.rotate (js "wall") Spec.wallBoard
            Spec.planAB [Spec.taskTitled "A"; Spec.taskTitled "B"] None Spec.emptyWorld
            !! js "A" = Some (js "id1")) as H by (vm_compute; reflexivity).
  split; [exact H|].
  apply (idByTaskKey_keys Spec.sampleId Spec.rotate (js "wall") Spec.wallBoard Spec.planAB
           [Spec.taskTitled "A"; Spec.taskTitled "B"] None Spec.emptyWorld (js "A") (js "id1")
           H).
Defined.

Lemma applyPlanToWall_demoAI_sample :
  boardOf Spec.placed = Some Spec.wallBoard
  /\ (let r :=
        applyPlanToWall Spec.sampleId Spec.rotate (js "wall") Spec.placed (Some demoAI) None
          Spec.userWorld in
      fst r = inr tt
      /\ Spec.newEdges (js "wall") Spec.userWorld (snd r) = []
      /\ readEdges (js "wall") (snd r) = readEdges (js "wall") Spec.userWorld).
Proof.
  split; [reflexivity|].
  apply (applyPlanToWall_demoAI Spec.sampleId Spec.rotate (js "wall") Spec.placed None
           Spec.userWorld Spec.wallBoard).
  reflexivity.
Defined.

(** Neither the plan the component holds nor the one the planner
    returns has a task: the demo plan steps in. *)
Lemma ensureRenderableAIOut_applies_sample :
  ensureRenderableAIOut (inr Spec.outNoTasks) (Some Spec.outNoTasks)
  = (inr demoAI, Some demoAI)
  /\ hasRenderable (Some demoAI) = true
  /\ Some demoAI = Some demoAI
  /\ (forall build', ensureRenderableAIOut build' (Some demoAI) = (inr demoAI, Some demoAI))
  /\ (forall b xr opts w,
        match boardOf xr with
        | Some _ =>
            fst (applyPlanToWall Spec.sampleId Spec.rotate b xr (Some demoAI) opts w) = inr tt
        | None =>
            applyPlanToWall Spec.sampleId Spec.rotate b xr (Some demoAI) opts w
            = (inl (JsError (js "Board not placed yet.")), w)
        end).
Proof.
  split; [reflexivity|].
  apply (ensureRenderableAIOut_applies Spec.sampleId Spec.rotate (inr Spec.outNoTasks)
           (Some Spec.outNoTasks) demoAI (Some demoAI)).
  reflexivity.
Defined.

End Instances.
